(** * Tic-Tac-Toe kata: a shallow embedding of [tic_tac_toe_game.py]

    The Python classes [Board], [GameLogic], [RandomBot] and [GameRunner]
    are translated method by method.  Python objects are mutated in place
    and exceptions leave the mutations done so far visible, so every method
    is a computation in a state-and-exception monad: it receives the
    object's state and returns a result (a value or a raised exception)
    together with the state it leaves behind. *)

From Stdlib Require Import ZArith String Ascii Bool Lia DecimalString.
From stdpp Require Import base list.

Local Open Scope string_scope.
Local Open Scope Z_scope.

(** ** Python values, exceptions, results *)

(** The values a cell, a marker or [current_player] can hold.  The code
    never checks what a marker is, so besides [None] and strings an integer
    stands for "some other object" (it is not [None], equals only itself
    and cannot be concatenated to a [str]). *)
Inductive pyval : Type :=
  | PyNone
  | PyStr (s : string)
  | PyInt (n : Z).

(** [a == b] on these values. *)
Definition py_eq (a b : pyval) : bool :=
  match a, b with
  | PyNone, PyNone => true
  | PyStr s, PyStr t => String.eqb s t
  | PyInt x, PyInt y => Z.eqb x y
  | _, _ => false
  end.

(** [a is None]. *)
Definition is_none (a : pyval) : bool :=
  match a with PyNone => true | _ => false end.

(** [str(a)], as an f-string field renders it. *)
Definition py_format (a : pyval) : string :=
  match a with
  | PyNone => "None"
  | PyStr s => s
  | PyInt n => DecimalString.NilZero.string_of_int (Z.to_int n)
  end.

Inductive exn : Type :=
  | IndexError
  | TypeError
  | ValueError (msg : string).

Inductive result (A : Type) : Type :=
  | Ok (a : A)
  | Raise (e : exn).
Arguments Ok {A} a.
Arguments Raise {A} e.

(** ** The state-and-exception monad *)

Definition M (S A : Type) : Type := S -> result A * S.

Definition ret {S A} (a : A) : M S A := fun s => (Ok a, s).
Definition raise {S A} (e : exn) : M S A := fun s => (Raise e, s).
Definition bind {S A B} (c : M S A) (k : A -> M S B) : M S B :=
  fun s => match c s with
           | (Ok a, s') => k a s'
           | (Raise e, s') => (Raise e, s')
           end.
Definition get {S} : M S S := fun s => (Ok s, s).
Definition put {S} (s : S) : M S unit := fun _ => (Ok tt, s).
(** [try: c except ...]: the outcome of [c] as a value. *)
Definition catch {S A} (c : M S A) : M S (result A) :=
  fun s => let (r, s') := c s in (Ok r, s').
Definition lift_result {S A} (r : result A) : M S A := fun s => (r, s).

Declare Scope py_scope.
Delimit Scope py_scope with py.
Notation "x <- c ;; k" := (bind c (fun x => k))
  (at level 100, c at next level, right associativity) : py_scope.
Notation "c ;;; k" := (bind c (fun _ => k))
  (at level 100, right associativity) : py_scope.
Local Open Scope py_scope.

(** [for x in xs: body], where the body may [return r] out of the enclosing
    function ([Some r]) or fall through to the next iteration ([None]). *)
Fixpoint for_each {S A R} (xs : list A) (body : A -> M S (option R))
  : M S (option R) :=
  match xs with
  | [] => ret None
  | x :: xs' =>
      r <- body x ;;
      match r with
      | Some v => ret (Some v)
      | None => for_each xs' body
      end
  end.

(** [for x in xs: body], the body updating a local variable. *)
Fixpoint for_acc {S A B} (xs : list A) (body : A -> B -> M S B) (acc : B)
  : M S B :=
  match xs with
  | [] => ret acc
  | x :: xs' => acc' <- body x acc ;; for_acc xs' body acc'
  end.

(** [all(p(x) for x in xs)]: the generator is consumed up to the first
    false element. *)
Fixpoint all_gen {S A} (xs : list A) (p : A -> M S bool) : M S bool :=
  match xs with
  | [] => ret true
  | x :: xs' => b <- p x ;; if b then all_gen xs' p else ret false
  end.

(** [range(n)]. *)
Definition py_range (n : nat) : list Z := map Z.of_nat (seq 0 n).

(** ** Python list indexing

    An index [i] of a list of length [n] is valid when [-n <= i < n]; a
    negative index counts from the end. *)
Definition py_norm (len : nat) (i : Z) : option nat :=
  if (0 <=? i) && (i <? Z.of_nat len) then Some (Z.to_nat i)
  else if (- Z.of_nat len <=? i) && (i <? 0) then Some (Z.to_nat (Z.of_nat len + i))
  else None.

(** [l[i]]. *)
Definition py_getitem {A} (l : list A) (i : Z) : result A :=
  match py_norm (length l) i with
  | Some n => match l !! n with
              | Some x => Ok x
              | None => Raise IndexError
              end
  | None => Raise IndexError
  end.

(** [l[i] = x]. *)
Definition py_setitem {A} (l : list A) (i : Z) (x : A) : result (list A) :=
  match py_norm (length l) i with
  | Some n => Ok (<[n:=x]> l)
  | None => Raise IndexError
  end.

(** [g[i][j]]. *)
Definition py_getitem2 {A} (g : list (list A)) (i j : Z) : result A :=
  match py_getitem g i with
  | Ok r => py_getitem r j
  | Raise e => Raise e
  end.

(** [g[i][j] = x].  The rows are distinct list objects (each one is built by
    its own run of the inner comprehension), so the assignment changes the
    row found at [i] and nothing else. *)
Definition py_setitem2 {A} (g : list (list A)) (i j : Z) (x : A)
  : result (list (list A)) :=
  match py_norm (length g) i with
  | Some n => match g !! n with
              | Some r => match py_setitem r j x with
                          | Ok r' => Ok (<[n:=r']> g)
                          | Raise e => Raise e
                          end
              | None => Raise IndexError
              end
  | None => Raise IndexError
  end.

(** ** class Board *)

Record Board : Type := { board : list (list pyval) }.

(** [Board.__init__] *)
Definition Board_init : Board :=
  {| board := map (fun _ => map (fun _ => PyNone) (py_range 3)) (py_range 3) |}.

(** [self.board[row][col]] *)
Definition board_at (row col : Z) : M Board pyval :=
  fun b => (py_getitem2 (board b) row col, b).

(** [Board.get_cell] *)
Definition get_cell (row col : Z) : M Board pyval := board_at row col.

Definition nl : string := String (ascii_of_nat 10) EmptyString.

Definition occupied_msg (row col : Z) : string :=
  "Cell (" ++ py_format (PyInt row) ++ ", " ++ py_format (PyInt col)
  ++ ") already occupied".

(** [Board.place_marker] *)
Definition place_marker (row col : Z) (marker : pyval) : M Board unit :=
  c <- board_at row col ;;
  if negb (is_none c) then raise (ValueError (occupied_msg row col))
  else
    b <- get ;;
    g <- lift_result (py_setitem2 (board b) row col marker) ;;
    put {| board := g |}.

(** [Board.is_full] *)
Definition is_full : M Board bool :=
  r <- for_each (py_range 3) (fun row =>
         for_each (py_range 3) (fun col =>
           c <- board_at row col ;;
           if is_none c then ret (Some false) else ret None)) ;;
  match r with
  | Some v => ret v
  | None => ret true
  end.

(** [Board.available_moves] *)
Definition available_moves : M Board (list (Z * Z)) :=
  for_acc (py_range 3) (fun row moves =>
    for_acc (py_range 3) (fun col moves =>
      c <- board_at row col ;;
      if is_none c then ret (moves ++ [(row, col)])%list else ret moves) moves) [].

(** [row_str += cell]: only a [str] can be appended to a [str]. *)
Definition str_add {S} (row_str : string) (cell : pyval) : M S string :=
  match cell with
  | PyStr s => ret (row_str ++ s)
  | _ => raise TypeError
  end.

(** [Board.__str__] *)
Definition Board_str : M Board string :=
  result <- for_acc (py_range 3) (fun row result =>
    row_str <- for_acc (py_range 3) (fun col row_str =>
      cell <- board_at row col ;;
      row_str <- (if is_none cell then ret (row_str ++ " ")
                  else str_add row_str cell) ;;
      if col <? 2 then ret (row_str ++ "|") else ret row_str) "" ;;
    let result := (result ++ [row_str])%list in
    if row <? 2 then ret (result ++ ["-+-+-"])%list else ret result) [] ;;
  ret (String.concat nl result).

(** ** class GameLogic

    A [GameLogic] holds a reference to the board it was built with; its
    methods therefore run on that board's state. *)

(** [GameLogic.check_win] *)
Definition check_win (marker : pyval) : M Board bool :=
  r <- for_each (py_range 3) (fun row =>
         a <- all_gen (py_range 3) (fun col =>
                c <- get_cell row col ;; ret (py_eq c marker)) ;;
         if a then ret (Some true) else ret None) ;;
  match r with
  | Some v => ret v
  | None =>
  r <- for_each (py_range 3) (fun col =>
         a <- all_gen (py_range 3) (fun row =>
                c <- get_cell row col ;; ret (py_eq c marker)) ;;
         if a then ret (Some true) else ret None) ;;
  match r with
  | Some v => ret v
  | None =>
  a <- all_gen (py_range 3) (fun i =>
         c <- get_cell i i ;; ret (py_eq c marker)) ;;
  if a then ret true else
  a <- all_gen (py_range 3) (fun i =>
         c <- get_cell i (2 - i) ;; ret (py_eq c marker)) ;;
  if a then ret true else
  ret false
  end
  end.

Definition X : pyval := PyStr "X".
Definition O : pyval := PyStr "O".

(** [GameLogic.check_draw]: [a and not b and not c] evaluates left to right
    and stops at the first false operand. *)
Definition check_draw : M Board bool :=
  f <- is_full ;;
  if negb f then ret false else
  wx <- check_win X ;;
  if negb (negb wx) then ret false else
  wo <- check_win O ;;
  ret (negb wo).


(** ** The process around the board

    Besides the board, a run touches the runner's [current_player], the
    standard output (one entry per [print] call) and the random generator
    (the number of draws made so far). *)
Record World : Type := {
  w_board : Board;
  w_current_player : pyval;
  w_stdout : list string;
  w_rng : nat
}.

Definition set_board (b : Board) (w : World) : World :=
  {| w_board := b; w_current_player := w_current_player w;
     w_stdout := w_stdout w; w_rng := w_rng w |}.

(** A [Board] method called on the board of the world. *)
Definition on_board {A} (c : M Board A) : M World A :=
  fun w => let (r, b') := c (w_board w) in (r, set_board b' w).

(** [print(s)] *)
Definition print (s : string) : M World unit :=
  fun w => (Ok tt,
            {| w_board := w_board w; w_current_player := w_current_player w;
               w_stdout := (w_stdout w ++ [s])%list; w_rng := w_rng w |}).

(** [self.current_player] and [self.current_player = p] *)
Definition get_current_player : M World pyval :=
  fun w => (Ok (w_current_player w), w).
Definition set_current_player (p : pyval) : M World unit :=
  fun w => (Ok tt,
            {| w_board := w_board w; w_current_player := p;
               w_stdout := w_stdout w; w_rng := w_rng w |}).

Record RandomBot : Type := { marker : pyval }.
Record GameRunner : Type := { bot_x : RandomBot; bot_o : RandomBot }.

(** What ended the loop of [run_game]: the [break] that was taken. *)
Inductive outcome : Type :=
  | Aborted (msg : string)
  | Won (p : pyval)
  | Draw.

(** The lines [run_game] prints: [f"\nPlayer {p}:"], [f"\nPLAYER {p} WON!"],
    ["\nGAME DRAW!"] and the two header lines. *)
Definition player_line (p : pyval) : string :=
  nl ++ "Player " ++ py_format p ++ ":".
Definition won_line (p : pyval) : string :=
  nl ++ "PLAYER " ++ py_format p ++ " WON!".
Definition draw_line : string := nl ++ "GAME DRAW!".
Definition start_line : string := "Starting Tic-Tac-Toe Bot vs Bot game:".
Definition initial_line : string := nl ++ "Initial board:".

Section Game.

(** The random generator: [rnd k] is the raw number it produces at its
    [k]-th draw.  Every sequence of draws is some [rnd]. *)
Variable rnd : nat -> nat.

(** [random.choice(seq)]: [seq[randbelow(len(seq))]], [IndexError] on an
    empty sequence. *)
Definition random_choice {A} (seq : list A) : M World A :=
  fun w =>
    match seq !! (rnd (w_rng w) mod length seq)%nat with
    | Some x => (Ok x,
                 {| w_board := w_board w;
                    w_current_player := w_current_player w;
                    w_stdout := w_stdout w; w_rng := S (w_rng w) |})
    | None => (Raise IndexError, w)
    end.

(** [RandomBot.make_move] *)
Definition make_move (self : RandomBot) : M World (Z * Z) :=
  moves <- on_board available_moves ;;
  match moves with
  | [] => raise (ValueError "No available moves")
  | _ =>
      rc <- random_choice moves ;;
      on_board (place_marker (fst rc) (snd rc) (marker self)) ;;;
      ret rc
  end.

(** One turn of the [while True] loop of [run_game]: [Some o] when a
    [break] is reached, [None] when the loop goes round again.
    [time.sleep(1)] changes nothing that the program can observe. *)
Definition loop_body (self : GameRunner) : M World (option outcome) :=
  p <- get_current_player ;;
  print (player_line p) ;;;
  r <- catch (if py_eq p X then make_move (bot_x self)
              else make_move (bot_o self)) ;;
  match r with
  | Raise (ValueError msg) =>
      print ("Error: " ++ msg) ;;; ret (Some (Aborted msg))
  | Raise e => raise e
  | Ok _ =>
      s <- on_board Board_str ;;
      print s ;;;
      p <- get_current_player ;;
      w <- on_board (check_win p) ;;
      if w then
        p <- get_current_player ;;
        print (won_line p) ;;;
        ret (Some (Won p))
      else
        d <- on_board check_draw ;;
        if d then print draw_line ;;; ret (Some Draw)
        else
          p <- get_current_player ;;
          set_current_player (if py_eq p X then O else X) ;;;
          ret None
  end.

(** The [while True] loop, [fuel] bounding the number of turns: [None]
    means the loop is still running when the fuel is spent. *)
Fixpoint run_loop (self : GameRunner) (fuel : nat) (w : World)
  : option (result outcome * World) :=
  match fuel with
  | 0%nat => None
  | S fuel' =>
      match loop_body self w with
      | (Ok None, w') => run_loop self fuel' w'
      | (Ok (Some o), w') => Some (Ok o, w')
      | (Raise e, w') => Some (Raise e, w')
      end
  end.

(** [GameRunner.run_game] *)
Definition run_game (self : GameRunner) (fuel : nat) (w : World)
  : option (result outcome * World) :=
  match (print start_line ;;;
         print initial_line ;;;
         s <- on_board Board_str ;;
         print s) w with
  | (Ok _, w') => run_loop self fuel w'
  | (Raise e, w') => Some (Raise e, w')
  end.

End Game.

(** [GameRunner.__init__]: the runner starts with [current_player = 'X']. *)
Definition GameRunner_init (b : Board) (out : list string) (draws : nat)
  : World :=
  {| w_board := b; w_current_player := X; w_stdout := out; w_rng := draws |}.

(** The two bots [main] creates. *)
Definition main_runner : GameRunner :=
  {| bot_x := {| marker := X |}; bot_o := {| marker := O |} |}.


(** ** Well-formed boards and pure views of a board

    The definitions below do not come from the source: they are the
    vocabulary in which the behaviour of the methods is stated. *)

(** The board with the nine given cells, row by row. *)
Definition grid (a b c d e f g h i : pyval) : Board :=
  {| board := [[a; b; c]; [d; e; f]; [g; h; i]] |}.

(** A 3x3 list of lists: what [Board.__init__] builds and what
    [place_marker] keeps. *)
Definition wf_board (b : Board) : Prop :=
  length (board b) = 3%nat /\ Forall (fun r => length r = 3%nat) (board b).

(** In bounds for the 3x3 grid. *)
Definition in_bounds (row col : Z) : Prop :=
  0 <= row <= 2 /\ 0 <= col <= 2.

(** A valid Python index of a list of length 3. *)
Definition py_valid3 (i : Z) : Prop := -3 <= i <= 2.

(** The position a valid Python index of a list of length 3 denotes. *)
Definition wrap3 (i : Z) : Z := if i <? 0 then i + 3 else i.

(** The content of a cell ([None] where [board[row][col]] would raise). *)
Definition cell (b : Board) (row col : Z) : pyval :=
  match py_getitem2 (board b) row col with
  | Ok v => v
  | Raise _ => PyNone
  end.

(** The nine coordinates in row-major order. *)
Definition positions : list (Z * Z) :=
  [(0, 0); (0, 1); (0, 2); (1, 0); (1, 1); (1, 2); (2, 0); (2, 1); (2, 2)].

(** The first [Some] a function produces along a list: the value an
    early-returning [for] loop returns. *)
Fixpoint first_some {A R} (f : A -> option R) (xs : list A) : option R :=
  match xs with
  | [] => None
  | x :: xs' => match f x with
                | Some v => Some v
                | None => first_some f xs'
                end
  end.

(** What [check_win] computes, read off the cells. *)
Definition win_pure (m : pyval) (b : Board) : bool :=
  match first_some (fun row =>
          if forallb (fun col => py_eq (cell b row col) m) (py_range 3)
          then Some true else None) (py_range 3) with
  | Some v => v
  | None =>
  match first_some (fun col =>
          if forallb (fun row => py_eq (cell b row col) m) (py_range 3)
          then Some true else None) (py_range 3) with
  | Some v => v
  | None =>
      if forallb (fun i => py_eq (cell b i i) m) (py_range 3) then true
      else if forallb (fun i => py_eq (cell b i (2 - i)) m) (py_range 3)
      then true else false
  end
  end.

(** What [is_full] computes. *)
Definition full_pure (b : Board) : bool :=
  match first_some (fun row =>
          first_some (fun col =>
            if is_none (cell b row col) then Some false else None)
            (py_range 3)) (py_range 3) with
  | Some v => v
  | None => true
  end.

(** What [available_moves] computes. *)
Definition avail_pure (b : Board) : list (Z * Z) :=
  List.filter (fun rc => is_none (cell b (fst rc) (snd rc))) positions.

(** The eight winning lines, as the specification lists them: three rows,
    three columns, the main diagonal and the anti-diagonal. *)
Definition winning_lines : list (list (Z * Z)) :=
  [ [(0, 0); (0, 1); (0, 2)];
    [(1, 0); (1, 1); (1, 2)];
    [(2, 0); (2, 1); (2, 2)];
    [(0, 0); (1, 0); (2, 0)];
    [(0, 1); (1, 1); (2, 1)];
    [(0, 2); (1, 2); (2, 2)];
    [(0, 0); (1, 1); (2, 2)];
    [(0, 2); (1, 1); (2, 0)] ].

(** Specification of a win: some winning line has its three cells equal to
    the marker, as [get_cell] reads them. *)
Definition has_line (b : Board) (m : pyval) : Prop :=
  Exists (fun line =>
    Forall (fun rc => fst (get_cell (fst rc) (snd rc) b) = Ok m) line)
    winning_lines.

(** Specification of a full board: no cell reads as [None]. *)
Definition no_empty_cell (b : Board) : Prop :=
  forall row col, in_bounds row col ->
    exists v, fst (get_cell row col b) = Ok v /\ v <> PyNone.

(** A cell of a game between the two bots of [main]. *)
Definition game_cell (v : pyval) : Prop := v = PyNone \/ v = X \/ v = O.

(** The operations of a board, for statements about all of them. *)
Inductive board_op : Type :=
  | OpGetCell (row col : Z)
  | OpPlaceMarker (row col : Z) (marker : pyval)
  | OpIsFull
  | OpAvailableMoves
  | OpStr.

(** The board an operation leaves behind, whether it returns or raises. *)
Definition run_op (op : board_op) (b : Board) : Board :=
  match op with
  | OpGetCell row col => snd (get_cell row col b)
  | OpPlaceMarker row col marker => snd (place_marker row col marker b)
  | OpIsFull => snd (is_full b)
  | OpAvailableMoves => snd (available_moves b)
  | OpStr => snd (Board_str b)
  end.

(** The board with one cell assigned (the board itself where the
    assignment would raise). *)
Definition set_cell (b : Board) (row col : Z) (m : pyval) : Board :=
  match py_setitem2 (board b) row col m with
  | Ok g => {| board := g |}
  | Raise _ => b
  end.

(** What a cell contributes to the number of available moves. *)
Definition none_count (v : pyval) : nat := if is_none v then 1 else 0.

(** Every cell of the board is empty or holds ['X'] or ['O']. *)
Definition game_board (b : Board) : Prop :=
  forall row col, in_bounds row col -> game_cell (cell b row col).

(** The text [__str__] writes for a cell. *)
Definition cell_text (v : pyval) : string :=
  match v with PyStr s => s | _ => " " end.

(** The last line a finished game prints. *)
Definition final_line (o : outcome) : string :=
  match o with
  | Won p => won_line p
  | Draw => draw_line
  | Aborted msg => "Error: " ++ msg
  end.

(** The state of a game of [main]'s two bots at the top of the loop, [k]
    moves after a start at which the generator had made [n0] draws: [k]
    cells are marked, at least one is free, nobody has a line yet. *)
Definition game_inv (n0 k : nat) (w : World) : Prop :=
  wf_board (w_board w) /\ game_board (w_board w)
  /\ length (avail_pure (w_board w)) = (9 - k)%nat /\ (k <= 8)%nat
  /\ w_rng w = (n0 + k)%nat
  /\ (w_current_player w = X \/ w_current_player w = O)
  /\ win_pure X (w_board w) = false /\ win_pure O (w_board w) = false.

(** How a game ends: by a win of ['X'] or of ['O'] or by a draw, after at
    most nine moves, each of which marked one cell, the verdict being the
    last line printed. *)
Definition game_over (n0 : nat) (o : outcome) (w : World) : Prop :=
  (o = Won X \/ o = Won O \/ o = Draw)
  /\ (n0 < w_rng w <= n0 + 9)%nat
  /\ length (avail_pure (w_board w)) = (9 - (w_rng w - n0))%nat
  /\ last (w_stdout w) = Some (final_line o).

(** A computation that leaves every state as it found it. *)
Definition read_only {S A} (c : M S A) : Prop := forall s, snd (c s) = s.

(** ** Further vocabulary: rendering, counting marks, [main] *)

(** A loop over [xs] whose body computes a result from the local variable.
    The loop stops at the first exception. *)
Fixpoint fold_res {A B} (f : B -> A -> result B) (xs : list A) (acc : B)
  : result B :=
  match xs with
  | [] => Ok acc
  | x :: xs' => match f acc x with
                | Ok acc' => fold_res f xs' acc'
                | Raise e => Raise e
                end
  end.

(** What [__str__] appends to [row_str] for one cell. *)
Definition add_cell (row_str : string) (v : pyval) : result string :=
  match v with
  | PyNone => Ok (row_str ++ " ")
  | PyStr s => Ok (row_str ++ s)
  | PyInt _ => Raise TypeError
  end.

(** What [__str__] computes for one row, and for the board. *)
Definition render_row (b : Board) (row : Z) : result string :=
  fold_res (fun row_str col =>
    match add_cell row_str (cell b row col) with
    | Ok r => Ok (if col <? 2 then r ++ "|" else r)
    | Raise e => Raise e
    end) (py_range 3) "".

Definition render (b : Board) : result string :=
  match fold_res (fun result row =>
          match render_row b row with
          | Ok row_str =>
              let result := (result ++ [row_str])%list in
              Ok (if row <? 2 then (result ++ ["-+-+-"])%list else result)
          | Raise e => Raise e
          end) (py_range 3) [] with
  | Ok result => Ok (String.concat nl result)
  | Raise e => Raise e
  end.

(** A rendered row: the three cell texts joined by ['|']. *)
Definition row_text (x y z : pyval) : string :=
  cell_text x ++ "|" ++ cell_text y ++ "|" ++ cell_text z.

(** A cell [__str__] can render: [None] or a string. *)
Definition printable (v : pyval) : Prop :=
  match v with PyInt _ => False | _ => True end.

(** The number of cells that hold a given marker. *)
Definition count_mark (m : pyval) (b : Board) : nat :=
  length (List.filter (fun rc => py_eq (cell b (fst rc) (snd rc)) m) positions).

(** The player who is not [p]. *)
Definition other_player (p : pyval) : pyval := if py_eq p X then O else X.

(** The player whose turn it is after [k] moves. *)
Definition player_at (k : nat) : pyval := if Nat.even k then X else O.

(** [(a, b) == (c, d)] on coordinates. *)
Definition coord_eqb (p q : Z * Z) : bool :=
  (fst p =? fst q) && (snd p =? snd q).

(** The banner [main] prints. *)
Definition banner_line : string := "Tic-Tac-Toe: Random Bot vs Random Bot".

(** [main]: the banner, two bots, a fresh board, a runner, the game.  The
    process starts with some output already written and a generator that
    has already made some draws. *)
Definition main (rnd : nat -> nat) (fuel : nat) (out : list string)
    (draws : nat) : option (result outcome * World) :=
  let out := (out ++ [banner_line])%list in
  let bots := {| bot_x := {| marker := X |}; bot_o := {| marker := O |} |} in
  run_game rnd bots fuel (GameRunner_init Board_init out draws).

(** What the loop prints for the moves number [i], [i+1], ...: before each
    rendered board, the line announcing the player whose turn it is. *)
Fixpoint transcript (i : nat) (renders : list string) : list string :=
  match renders with
  | [] => []
  | s :: rest => player_line (player_at i) :: s :: transcript (S i) rest
  end.

(** The state of a game of [main]'s bots at the top of the loop after [k]
    moves, in full: besides [game_inv], whose turn it is, how many marks
    each player has, and what has been printed after the header [pre]. *)
Definition turn_inv (pre : list string) (n0 k : nat) (w : World) : Prop :=
  game_inv n0 k w
  /\ w_current_player w = player_at k
  /\ count_mark X (w_board w) = Nat.div2 (S k)
  /\ count_mark O (w_board w) = Nat.div2 k
  /\ exists renders,
       length renders = k
       /\ w_stdout w = (pre ++ transcript 0 renders)%list
       /\ exists s, Board_str (w_board w) = (Ok s, w_board w)
                    /\ last (pre ++ renders) = Some s.

(** The state in which a game ends, in full. *)
Definition game_end (pre : list string) (n0 : nat) (o : outcome) (w : World)
  : Prop :=
  exists k renders s,
    (k <= 8)%nat /\ w_rng w = (n0 + S k)%nat
    /\ wf_board (w_board w)
    /\ length (avail_pure (w_board w)) = (8 - k)%nat
    /\ count_mark X (w_board w) = Nat.div2 (S (S k))
    /\ count_mark O (w_board w) = Nat.div2 (S k)
    /\ length renders = k
    /\ Board_str (w_board w) = (Ok s, w_board w)
    /\ w_stdout w
       = (pre ++ transcript 0 (renders ++ [s]) ++ [final_line o])%list
    /\ match o with
       | Won p =>
           p = player_at k /\ win_pure p (w_board w) = true
           /\ win_pure (other_player p) (w_board w) = false
       | Draw =>
           full_pure (w_board w) = true /\ win_pure X (w_board w) = false
           /\ win_pure O (w_board w) = false
       | Aborted _ => False
       end.




(** * Properties *)

(** ** The monad and the loops *)

Lemma bind_ok {S A B} (c : M S A) (k : A -> M S B) s a s' :
  c s = (Ok a, s') -> bind c k s = k a s'.
Proof. unfold bind. intros ->. reflexivity. Qed.

Lemma bind_raise {S A B} (c : M S A) (k : A -> M S B) s e s' :
  c s = (Raise e, s') -> bind c k s = (Raise e, s').
Proof. unfold bind. intros ->. reflexivity. Qed.

(** A loop whose body only reads the state leaves it as it was. *)
Lemma all_gen_ro {S A} (xs : list A) (p : A -> M S bool) (q : A -> bool) s :
  (forall x, In x xs -> p x s = (Ok (q x), s)) ->
  all_gen xs p s = (Ok (forallb q xs), s).
Proof.
  induction xs as [|x xs IH]; intros H; simpl; [reflexivity|].
  rewrite (bind_ok _ _ _ _ _ (H x (or_introl eq_refl))).
  destruct (q x); simpl; [|reflexivity].
  apply IH. intros y Hy. apply H. now right.
Qed.

Lemma for_each_ro {S A R} (xs : list A) (body : A -> M S (option R))
    (f : A -> option R) s :
  (forall x, In x xs -> body x s = (Ok (f x), s)) ->
  for_each xs body s = (Ok (first_some f xs), s).
Proof.
  induction xs as [|x xs IH]; intros H; simpl; [reflexivity|].
  rewrite (bind_ok _ _ _ _ _ (H x (or_introl eq_refl))).
  destruct (f x); [reflexivity|].
  apply IH. intros y Hy. apply H. now right.
Qed.

Lemma for_acc_ro {S A B} (xs : list A) (body : A -> B -> M S B)
    (f : B -> A -> B) s :
  (forall x acc, In x xs -> body x acc s = (Ok (f acc x), s)) ->
  forall acc, for_acc xs body acc s = (Ok (fold_left f xs acc), s).
Proof.
  induction xs as [|x xs IH]; intros H acc; simpl; [reflexivity|].
  rewrite (bind_ok _ _ _ _ _ (H x acc (or_introl eq_refl))).
  apply IH. intros y acc' Hy. apply H. now right.
Qed.

Lemma py_range3 : py_range 3 = [0; 1; 2].
Proof. reflexivity. Qed.

Lemma in_range3 x : In x (py_range 3) -> x = 0 \/ x = 1 \/ x = 2.
Proof. rewrite py_range3. simpl. intuition. Qed.

(** ** Values *)

Lemma py_eq_spec a b : py_eq a b = true <-> a = b.
Proof.
  destruct a, b; simpl; split; try congruence; try discriminate.
  - intros H. apply String.eqb_eq in H. congruence.
  - intros [= ->]. apply String.eqb_refl.
  - intros H. apply Z.eqb_eq in H. congruence.
  - intros [= ->]. apply Z.eqb_refl.
Qed.

Lemma is_none_spec a : is_none a = true <-> a = PyNone.
Proof. destruct a; simpl; split; congruence. Qed.

(** ** Well-formed boards are grids *)

Lemma length3 {A} (l : list A) :
  length l = 3%nat -> exists x y z, l = [x; y; z].
Proof.
  destruct l as [|x [|y [|z [|t l]]]]; simpl; intros H; try discriminate.
  eauto.
Qed.

Lemma wf_board_grid b :
  wf_board b -> exists a1 a2 a3 b1 b2 b3 c1 c2 c3,
    b = grid a1 a2 a3 b1 b2 b3 c1 c2 c3.
Proof.
  destruct b as [g]. intros [Hl Hr]. simpl in *.
  destruct (length3 g Hl) as (r0 & r1 & r2 & ->).
  inversion Hr as [|? ? H0 Hr1]; subst.
  inversion Hr1 as [|? ? H1 Hr2]; subst.
  inversion Hr2 as [|? ? H2 _]; subst.
  destruct (length3 _ H0) as (a1 & a2 & a3 & ->).
  destruct (length3 _ H1) as (b1 & b2 & b3 & ->).
  destruct (length3 _ H2) as (c1 & c2 & c3 & ->).
  unfold grid. eauto 10.
Qed.

Lemma grid_wf a b c d e f g h i : wf_board (grid a b c d e f g h i).
Proof. split; [reflexivity | repeat constructor]. Qed.

Lemma Board_init_grid :
  Board_init
  = grid PyNone PyNone PyNone PyNone PyNone PyNone PyNone PyNone PyNone.
Proof. reflexivity. Qed.

Lemma Board_init_wf : wf_board Board_init.
Proof. rewrite Board_init_grid. apply grid_wf. Qed.

Lemma in_bounds_cases row col :
  in_bounds row col ->
  (row = 0 \/ row = 1 \/ row = 2) /\ (col = 0 \/ col = 1 \/ col = 2).
Proof. unfold in_bounds. lia. Qed.

Ltac to_grid b H :=
  destruct (wf_board_grid b H) as (?a & ?b & ?c & ?d & ?e & ?f & ?g & ?h & ?i & ->).

Ltac bounds_cases H :=
  apply in_bounds_cases in H;
  destruct H as [[-> | [-> | ->]] [-> | [-> | ->]]].

(** On a well-formed board an in-bounds read returns the cell and leaves
    the board alone. *)
Lemma board_at_wf b row col :
  wf_board b -> in_bounds row col ->
  board_at row col b = (Ok (cell b row col), b).
Proof.
  intros Hwf Hb. to_grid b Hwf. bounds_cases Hb; reflexivity.
Qed.

Lemma get_cell_wf b row col :
  wf_board b -> in_bounds row col ->
  get_cell row col b = (Ok (cell b row col), b).
Proof. apply board_at_wf. Qed.

Lemma in_bounds_range row col :
  In row (py_range 3) -> In col (py_range 3) -> in_bounds row col.
Proof.
  intros Hr Hc. apply in_range3 in Hr, Hc. unfold in_bounds. lia.
Qed.

(** ** check_win *)

Lemma check_win_wf m b :
  wf_board b -> check_win m b = (Ok (win_pure m b), b).
Proof.
  intros Hwf. unfold check_win, win_pure.
  assert (Hcell : forall row col, in_bounds row col ->
            (c <- get_cell row col ;; ret (py_eq c m)) b
            = (Ok (py_eq (cell b row col) m), b)).
  { intros row col Hb. now rewrite (bind_ok _ _ _ _ _ (get_cell_wf b row col Hwf Hb)). }
  erewrite bind_ok; cycle 1.
  { apply for_each_ro with
      (f := fun row => if forallb (fun col => py_eq (cell b row col) m) (py_range 3)
                       then Some true else None).
    intros row Hrow. erewrite bind_ok; cycle 1.
    { apply all_gen_ro with (q := fun col => py_eq (cell b row col) m).
      intros col Hcol. apply Hcell. now apply in_bounds_range. }
    now destruct (forallb _ _). }
  destruct (first_some _ _) as [v|]; [reflexivity|].
  erewrite bind_ok; cycle 1.
  { apply for_each_ro with
      (f := fun col => if forallb (fun row => py_eq (cell b row col) m) (py_range 3)
                       then Some true else None).
    intros col Hcol. erewrite bind_ok; cycle 1.
    { apply all_gen_ro with (q := fun row => py_eq (cell b row col) m).
      intros row Hrow. apply Hcell. now apply in_bounds_range. }
    now destruct (forallb _ _). }
  destruct (first_some _ _) as [v|]; [reflexivity|].
  erewrite bind_ok; cycle 1.
  { apply all_gen_ro with (q := fun i => py_eq (cell b i i) m).
    intros i Hi. apply Hcell. now apply in_bounds_range. }
  destruct (forallb _ _); [reflexivity|].
  erewrite bind_ok; cycle 1.
  { apply all_gen_ro with (q := fun i => py_eq (cell b i (2 - i)) m).
    intros i Hi. apply Hcell. apply in_range3 in Hi. unfold in_bounds. lia. }
  now destruct (forallb _ _).
Qed.


(** Reading a cell of a grid at known coordinates. *)
Ltac cell_simpl :=
  repeat match goal with
  | |- context [cell (grid ?a ?b ?c ?d ?e ?f ?g ?h ?i) ?r ?k] =>
      let v := eval vm_compute in (cell (grid a b c d e f g h i) r k) in
      change (cell (grid a b c d e f g h i) r k) with v
  end.

(** [check_win] on a grid, as a boolean formula over the nine cells. *)
Lemma win_pure_grid m a b c d e f g h i :
  win_pure m (grid a b c d e f g h i)
  = (py_eq a m && py_eq b m && py_eq c m)
    || (py_eq d m && py_eq e m && py_eq f m)
    || (py_eq g m && py_eq h m && py_eq i m)
    || (py_eq a m && py_eq d m && py_eq g m)
    || (py_eq b m && py_eq e m && py_eq h m)
    || (py_eq c m && py_eq f m && py_eq i m)
    || (py_eq a m && py_eq e m && py_eq i m)
    || (py_eq c m && py_eq e m && py_eq g m).
Proof.
  unfold win_pure. rewrite py_range3. cbn -[py_eq cell]. cell_simpl.
  destruct (py_eq a m), (py_eq b m), (py_eq c m), (py_eq d m), (py_eq e m),
    (py_eq f m), (py_eq g m), (py_eq h m), (py_eq i m); reflexivity.
Qed.

Lemma has_line_grid m a b c d e f g h i :
  has_line (grid a b c d e f g h i) m <->
  win_pure m (grid a b c d e f g h i) = true.
Proof.
  rewrite win_pure_grid.
  rewrite !orb_true_iff, !andb_true_iff, !py_eq_spec.
  unfold has_line, winning_lines.
  rewrite !Exists_cons, !Forall_cons, !Forall_nil, Exists_nil.
  unfold get_cell, board_at, grid. cbn [fst snd board].
  repeat match goal with
  | |- context [py_getitem2 ?l ?r ?k] =>
      let v := eval vm_compute in (py_getitem2 l r k) in
      change (py_getitem2 l r k) with v
  end.
  intuition congruence.
Qed.

(** C1. For every (3x3) board and every marker, [check_win] returns, leaves
    the board as it was, and its answer is [true] exactly when one of the
    eight winning lines (three rows, three columns, the two diagonals) has
    its three cells equal to the marker. *)
Theorem check_win_iff_winning_line (b : Board) (m : pyval) :
  wf_board b ->
  exists v, check_win m b = (Ok v, b) /\ (v = true <-> has_line b m).
Proof.
  intros Hwf. exists (win_pure m b). split.
  - now apply check_win_wf.
  - to_grid b Hwf. symmetry. apply has_line_grid.
Qed.

Lemma check_win_iff_winning_line_witness :
  wf_board (grid X X X O O PyNone PyNone PyNone PyNone) /\
  exists v, check_win X (grid X X X O O PyNone PyNone PyNone PyNone)
            = (Ok v, grid X X X O O PyNone PyNone PyNone PyNone)
            /\ (v = true <-> has_line (grid X X X O O PyNone PyNone PyNone PyNone) X).
Proof.
  split; [apply grid_wf|].
  apply (check_win_iff_winning_line
           (grid X X X O O PyNone PyNone PyNone PyNone) X).
  apply grid_wf.
Defined.

(** ** is_full and check_draw *)

Lemma is_full_wf b : wf_board b -> is_full b = (Ok (full_pure b), b).
Proof.
  intros Hwf. unfold is_full, full_pure.
  erewrite bind_ok; cycle 1.
  { apply for_each_ro with
      (f := fun row => first_some (fun col =>
              if is_none (cell b row col) then Some false else None)
              (py_range 3)).
    intros row Hrow.
    apply for_each_ro with
      (f := fun col => if is_none (cell b row col) then Some false else None).
    intros col Hcol.
    rewrite (bind_ok _ _ _ _ _
               (board_at_wf b row col Hwf (in_bounds_range _ _ Hrow Hcol))).
    now destruct (is_none _). }
  now destruct (first_some _ _).
Qed.

Lemma full_pure_grid a b c d e f g h i :
  full_pure (grid a b c d e f g h i)
  = negb (is_none a) && negb (is_none b) && negb (is_none c)
    && negb (is_none d) && negb (is_none e) && negb (is_none f)
    && negb (is_none g) && negb (is_none h) && negb (is_none i).
Proof.
  unfold full_pure. rewrite py_range3. cbn -[cell]. cell_simpl.
  destruct (is_none a), (is_none b), (is_none c), (is_none d), (is_none e),
    (is_none f), (is_none g), (is_none h), (is_none i); reflexivity.
Qed.

Lemma in_positions row col : In (row, col) positions <-> in_bounds row col.
Proof.
  unfold positions, in_bounds. simpl. split.
  - intros H. repeat destruct H as [[= <- <-] | H]; try lia.
  - intros H.
    assert (Hc : (row = 0 \/ row = 1 \/ row = 2)
                 /\ (col = 0 \/ col = 1 \/ col = 2)) by lia.
    destruct Hc as [[-> | [-> | ->]] [-> | [-> | ->]]]; tauto.
Qed.

Lemma full_pure_cells b :
  wf_board b ->
  full_pure b
  = forallb (fun rc => negb (is_none (cell b (fst rc) (snd rc)))) positions.
Proof.
  intros Hwf. to_grid b Hwf. rewrite full_pure_grid.
  cbn -[cell]. cell_simpl. rewrite andb_true_r, !andb_assoc. reflexivity.
Qed.

(** [is_full] answers [true] exactly when no cell is [None]. *)
Lemma full_pure_no_empty_cell b :
  wf_board b -> full_pure b = true <-> no_empty_cell b.
Proof.
  intros Hwf. rewrite (full_pure_cells b Hwf), forallb_forall.
  unfold no_empty_cell. split.
  - intros H row col Hb. rewrite (get_cell_wf b row col Hwf Hb). simpl.
    exists (cell b row col). split; [reflexivity|].
    apply in_positions in Hb. apply H in Hb. simpl in Hb.
    intros Hn. rewrite Hn in Hb. discriminate.
  - intros H [row col] Hin. apply in_positions in Hin. simpl.
    destruct (H row col Hin) as (v & Hv & Hne).
    rewrite (get_cell_wf b row col Hwf Hin) in Hv. simpl in Hv.
    injection Hv as ->. now destruct v.
Qed.

Lemma check_draw_wf b :
  wf_board b ->
  check_draw b
  = (Ok (full_pure b && negb (win_pure X b) && negb (win_pure O b)), b).
Proof.
  intros Hwf. unfold check_draw.
  rewrite (bind_ok _ _ _ _ _ (is_full_wf b Hwf)).
  destruct (full_pure b); simpl; [|reflexivity].
  rewrite (bind_ok _ _ _ _ _ (check_win_wf X b Hwf)).
  destruct (win_pure X b); simpl; [reflexivity|].
  rewrite (bind_ok _ _ _ _ _ (check_win_wf O b Hwf)).
  reflexivity.
Qed.

Lemma has_line_wf b m :
  wf_board b -> has_line b m <-> win_pure m b = true.
Proof. intros Hwf. to_grid b Hwf. apply has_line_grid. Qed.

(** C2. For every (3x3) board, [check_draw] returns, leaves the board as it
    was, and answers [true] exactly when the board is full (no cell reads
    as [None]) and neither ['X'] nor ['O'] has a winning line, which is
    exactly when [is_full] returns [true] and [check_win] returns [false]
    for both ['X'] and ['O']; on a full board on which either marker has a
    winning line it returns [false]. *)
Theorem check_draw_iff_full_and_no_win (b : Board) :
  wf_board b ->
  exists v, check_draw b = (Ok v, b)
    /\ (v = true <->
          no_empty_cell b /\ ~ has_line b X /\ ~ has_line b O)
    /\ (v = true <->
          is_full b = (Ok true, b)
          /\ check_win X b = (Ok false, b)
          /\ check_win O b = (Ok false, b))
    /\ (no_empty_cell b -> has_line b X \/ has_line b O -> v = false).
Proof.
  intros Hwf.
  exists (full_pure b && negb (win_pure X b) && negb (win_pure O b)).
  split; [now apply check_draw_wf|].
  rewrite (is_full_wf b Hwf), (check_win_wf X b Hwf), (check_win_wf O b Hwf).
  rewrite !(has_line_wf b _ Hwf), <- (full_pure_no_empty_cell b Hwf).
  rewrite !andb_true_iff, !negb_true_iff.
  split; [|split].
  - destruct (win_pure X b), (win_pure O b); intuition congruence.
  - split.
    + intros [[-> ->] ->]. auto.
    + intros (H1 & H2 & H3). injection H1 as ->. injection H2 as ->.
      injection H3 as ->. auto.
  - intros _ [Hw | Hw]; rewrite Hw.
    + now destruct (full_pure b).
    + now destruct (full_pure b), (win_pure X b).
Qed.

Lemma check_draw_iff_full_and_no_win_witness :
  exists v, check_draw (grid X O X X O O O X X)
            = (Ok v, grid X O X X O O O X X)
    /\ (v = true <->
          no_empty_cell (grid X O X X O O O X X)
          /\ ~ has_line (grid X O X X O O O X X) X
          /\ ~ has_line (grid X O X X O O O X X) O)
    /\ (v = true <->
          is_full (grid X O X X O O O X X) = (Ok true, grid X O X X O O O X X)
          /\ check_win X (grid X O X X O O O X X)
             = (Ok false, grid X O X X O O O X X)
          /\ check_win O (grid X O X X O O O X X)
             = (Ok false, grid X O X X O O O X X))
    /\ (no_empty_cell (grid X O X X O O O X X) ->
        has_line (grid X O X X O O O X X) X
        \/ has_line (grid X O X X O O O X X) O -> v = false).
Proof.
  apply (check_draw_iff_full_and_no_win (grid X O X X O O O X X)).
  apply grid_wf.
Defined.

(** ** Python indexing *)

Lemma py_norm_None n i : py_norm n i = None <-> i < - Z.of_nat n \/ Z.of_nat n <= i.
Proof.
  unfold py_norm.
  destruct (Z.leb_spec 0 i), (Z.ltb_spec i (Z.of_nat n)),
    (Z.leb_spec (- Z.of_nat n) i), (Z.ltb_spec i 0); simpl;
  split; intros Hn; try discriminate; try reflexivity; lia.
Qed.

Lemma py_norm_Some n i k :
  py_norm n i = Some k ->
  (k < n)%nat /\ (Z.of_nat k = i \/ Z.of_nat k = i + Z.of_nat n).
Proof.
  unfold py_norm.
  destruct (Z.leb_spec 0 i), (Z.ltb_spec i (Z.of_nat n)),
    (Z.leb_spec (- Z.of_nat n) i), (Z.ltb_spec i 0); simpl;
  intros [= <-]; lia.
Qed.

Lemma py_getitem_Ok {A} (l : list A) i x :
  py_getitem l i = Ok x <->
  exists k, py_norm (length l) i = Some k /\ l !! k = Some x.
Proof.
  unfold py_getitem. split.
  - destruct (py_norm (length l) i) as [k|]; [|discriminate].
    destruct (l !! k) as [y|] eqn:E; [|discriminate].
    intros [= ->]. eauto.
  - intros (k & -> & ->). reflexivity.
Qed.

Lemma py_getitem_invalid {A} (l : list A) i :
  i < - Z.of_nat (length l) \/ Z.of_nat (length l) <= i ->
  py_getitem l i = Raise IndexError.
Proof.
  intros H. unfold py_getitem. apply py_norm_None in H. now rewrite H.
Qed.

Lemma py_getitem_Raise {A} (l : list A) i e :
  py_getitem l i = Raise e -> e = IndexError.
Proof.
  unfold py_getitem. destruct (py_norm _ _) as [k|]; [|congruence].
  destruct (l !! k); congruence.
Qed.

Lemma py_getitem2_Ok {A} (g : list (list A)) i j x :
  py_getitem2 g i j = Ok x <->
  exists n r k, py_norm (length g) i = Some n /\ g !! n = Some r
                /\ py_norm (length r) j = Some k /\ r !! k = Some x.
Proof.
  unfold py_getitem2. split.
  - destruct (py_getitem g i) as [r|] eqn:E; [|discriminate].
    apply py_getitem_Ok in E as (n & Hn & Hr).
    intros H. apply py_getitem_Ok in H as (k & Hk & Hx). eauto 10.
  - intros (n & r & k & Hn & Hr & Hk & Hx).
    assert (E : py_getitem g i = Ok r) by (apply py_getitem_Ok; eauto).
    rewrite E. apply py_getitem_Ok. eauto.
Qed.

Lemma py_getitem2_Raise {A} (g : list (list A)) i j e :
  py_getitem2 g i j = Raise e -> e = IndexError.
Proof.
  unfold py_getitem2. destruct (py_getitem g i) eqn:E.
  - apply py_getitem_Raise.
  - intros [= <-]. now apply py_getitem_Raise in E.
Qed.

(** ** Methods that only read *)

Lemma read_only_ret {S A} (a : A) : read_only (S := S) (ret a).
Proof. intros s. reflexivity. Qed.

Lemma read_only_raise {S A} e : read_only (S := S) (A := A) (raise e).
Proof. intros s. reflexivity. Qed.

Lemma read_only_bind {S A B} (c : M S A) (k : A -> M S B) :
  read_only c -> (forall a, read_only (k a)) -> read_only (bind c k).
Proof.
  intros Hc Hk s. unfold bind. specialize (Hc s).
  destruct (c s) as [[a|e] s']; simpl in Hc; subst; [apply Hk | reflexivity].
Qed.

Lemma read_only_for_each {S A R} (xs : list A) (body : A -> M S (option R)) :
  (forall x, read_only (body x)) -> read_only (for_each xs body).
Proof.
  intros H. induction xs as [|x xs IH]; simpl; [apply read_only_ret|].
  apply read_only_bind; [apply H|].
  intros [v|]; [apply read_only_ret | apply IH].
Qed.

Lemma read_only_for_acc {S A B} (xs : list A) (body : A -> B -> M S B) :
  (forall x acc, read_only (body x acc)) ->
  forall acc, read_only (for_acc xs body acc).
Proof.
  intros H. induction xs as [|x xs IH]; intros acc; simpl;
    [apply read_only_ret|].
  apply read_only_bind; [apply H | apply IH].
Qed.

Lemma read_only_all_gen {S A} (xs : list A) (p : A -> M S bool) :
  (forall x, read_only (p x)) -> read_only (all_gen xs p).
Proof.
  intros H. induction xs as [|x xs IH]; simpl; [apply read_only_ret|].
  apply read_only_bind; [apply H|].
  intros [|]; [apply IH | apply read_only_ret].
Qed.

Lemma read_only_board_at row col : read_only (board_at row col).
Proof. intros s. reflexivity. Qed.

Lemma read_only_get_cell row col : read_only (get_cell row col).
Proof. apply read_only_board_at. Qed.

Lemma read_only_is_full : read_only is_full.
Proof.
  unfold is_full. apply read_only_bind.
  - apply read_only_for_each. intros row.
    apply read_only_for_each. intros col.
    apply read_only_bind; [apply read_only_board_at|].
    intros c. destruct (is_none c); apply read_only_ret.
  - intros [v|]; apply read_only_ret.
Qed.

Lemma read_only_available_moves : read_only available_moves.
Proof.
  unfold available_moves. apply read_only_for_acc. intros row acc.
  apply read_only_for_acc. intros col acc'.
  apply read_only_bind; [apply read_only_board_at|].
  intros c. destruct (is_none c); apply read_only_ret.
Qed.

Lemma read_only_Board_str : read_only Board_str.
Proof.
  unfold Board_str. apply read_only_bind; [|intros; apply read_only_ret].
  apply read_only_for_acc. intros row acc.
  apply read_only_bind.
  - apply read_only_for_acc. intros col acc'.
    apply read_only_bind; [apply read_only_board_at|].
    intros c. apply read_only_bind.
    + destruct (is_none c); [apply read_only_ret|].
      destruct c; simpl; first [apply read_only_ret | apply read_only_raise].
    + intros r. destruct (col <? 2); apply read_only_ret.
  - intros r. destruct (row <? 2); apply read_only_ret.
Qed.

Lemma read_only_check_win m : read_only (check_win m).
Proof.
  assert (Hc : forall row col,
            read_only (c <- get_cell row col ;; ret (py_eq c m))).
  { intros. apply read_only_bind; [apply read_only_get_cell|].
    intros; apply read_only_ret. }
  assert (Hl : forall (g : Z -> Z -> M Board bool),
            (forall x y, read_only (g x y)) ->
            read_only (for_each (py_range 3) (fun x =>
              a <- all_gen (py_range 3) (g x) ;;
              if a then ret (Some true) else ret None))).
  { intros g Hg. apply read_only_for_each. intros x.
    apply read_only_bind; [apply read_only_all_gen, Hg|].
    intros [|]; apply read_only_ret. }
  unfold check_win. apply read_only_bind.
  { apply (Hl (fun row col => c <- get_cell row col ;; ret (py_eq c m))).
    intros; apply Hc. }
  intros [v|]; [apply read_only_ret|]. apply read_only_bind.
  { apply (Hl (fun col row => c <- get_cell row col ;; ret (py_eq c m))).
    intros; apply Hc. }
  intros [v|]; [apply read_only_ret|]. apply read_only_bind.
  { apply read_only_all_gen. intros; apply Hc. }
  intros [|]; [apply read_only_ret|]. apply read_only_bind.
  { apply read_only_all_gen. intros; apply Hc. }
  intros [|]; apply read_only_ret.
Qed.

Lemma read_only_check_draw : read_only check_draw.
Proof.
  unfold check_draw. apply read_only_bind; [apply read_only_is_full|].
  intros f. destruct (negb f); [apply read_only_ret|].
  apply read_only_bind; [apply read_only_check_win|].
  intros wx. destruct (negb (negb wx)); [apply read_only_ret|].
  apply read_only_bind; [apply read_only_check_win|].
  intros; apply read_only_ret.
Qed.

(** ** available_moves *)

Lemma fold_filter_map {A B} (t : B -> bool) (f : A -> B) xs acc :
  fold_left (fun acc x => if t (f x) then (acc ++ [f x])%list else acc) xs acc
  = (acc ++ List.filter t (map f xs))%list.
Proof.
  revert acc. induction xs as [|x xs IH]; intros acc; simpl.
  - now rewrite app_nil_r.
  - rewrite IH. destruct (t (f x)); [|reflexivity].
    now rewrite <- app_assoc.
Qed.

Lemma available_moves_wf b :
  wf_board b -> available_moves b = (Ok (avail_pure b), b).
Proof.
  intros Hwf. unfold available_moves.
  set (t := fun rc : Z * Z => is_none (cell b (fst rc) (snd rc))).
  rewrite for_acc_ro with
    (f := fun acc row =>
            (acc ++ List.filter t (map (pair row) (py_range 3)))%list).
  - unfold avail_pure. fold t. rewrite py_range3. cbn [fold_left map].
    rewrite app_nil_l, <- !List.filter_app. reflexivity.
  - intros row acc Hrow.
    rewrite for_acc_ro with
      (f := fun acc col =>
              if t (row, col) then (acc ++ [(row, col)])%list else acc).
    + now rewrite (fold_filter_map t (pair row)).
    + intros col acc' Hcol.
      rewrite (bind_ok _ _ _ _ _
                 (board_at_wf b row col Hwf (in_bounds_range _ _ Hrow Hcol))).
      unfold t. simpl. now destruct (is_none _).
Qed.

Lemma in_avail_pure b row col :
  In (row, col) (avail_pure b) <->
  in_bounds row col /\ cell b row col = PyNone.
Proof.
  unfold avail_pure. rewrite List.filter_In, in_positions. simpl.
  now rewrite is_none_spec.
Qed.

(** [is_full] says yes exactly when [available_moves] has nothing to offer. *)
Lemma full_pure_avail b :
  wf_board b -> full_pure b = true <-> avail_pure b = [].
Proof.
  intros Hwf. rewrite (full_pure_cells b Hwf). unfold avail_pure.
  induction positions as [|rc l IH]; simpl; [tauto|].
  destruct (is_none _); simpl; [split; discriminate | exact IH].
Qed.

(** ** place_marker *)

Lemma place_marker_cases b row col m :
  match py_getitem2 (board b) row col with
  | Raise e => place_marker row col m b = (Raise e, b)
  | Ok v =>
      if is_none v then
        exists n r k,
          py_norm (length (board b)) row = Some n /\ board b !! n = Some r
          /\ py_norm (length r) col = Some k /\ r !! k = Some v
          /\ place_marker row col m b
             = (Ok tt, {| board := <[n := <[k := m]> r]> (board b) |})
      else place_marker row col m b
           = (Raise (ValueError (occupied_msg row col)), b)
  end.
Proof.
  unfold place_marker, bind, board_at.
  destruct (py_getitem2 (board b) row col) as [v|e] eqn:E; [|reflexivity].
  destruct (is_none v) eqn:Hv; simpl; [|reflexivity].
  apply py_getitem2_Ok in E as (n & r & k & Hn & Hr & Hk & Hx).
  exists n, r, k. repeat (split; [assumption|]).
  unfold get, lift_result, put, py_setitem2, py_setitem.
  now rewrite Hn, Hr, Hk.
Qed.

(** When [place_marker] raises, the board is as it was. *)
Lemma place_marker_raise b row col m e b' :
  place_marker row col m b = (Raise e, b') -> b' = b.
Proof.
  pose proof (place_marker_cases b row col m) as H.
  destruct (py_getitem2 (board b) row col) as [v|e'].
  - destruct (is_none v).
    + destruct H as (n & r & k & _ & _ & _ & _ & ->). discriminate.
    + rewrite H. congruence.
  - rewrite H. congruence.
Qed.

Lemma place_marker_set_cell b row col m b' :
  place_marker row col m b = (Ok tt, b') ->
  cell b row col = PyNone /\ b' = set_cell b row col m.
Proof.
  pose proof (place_marker_cases b row col m) as H.
  unfold cell, set_cell.
  destruct (py_getitem2 (board b) row col) as [v|e'] eqn:E.
  - destruct (is_none v) eqn:Hv.
    + destruct H as (n & r & k & Hn & Hr & Hk & Hx & ->).
      intros [= <-]. apply is_none_spec in Hv. split; [assumption|].
      unfold py_setitem2, py_setitem. now rewrite Hn, Hr, Hk.
    + rewrite H. discriminate.
  - rewrite H. discriminate.
Qed.

Lemma py_valid3_cases i :
  py_valid3 i ->
  i = -3 \/ i = -2 \/ i = -1 \/ i = 0 \/ i = 1 \/ i = 2.
Proof. unfold py_valid3. lia. Qed.

Ltac valid_cases H :=
  apply py_valid3_cases in H;
  destruct H as [-> | [-> | [-> | [-> | [-> | ->]]]]].


Lemma get_cell_invalid b row col :
  wf_board b -> ~ (py_valid3 row /\ py_valid3 col) ->
  get_cell row col b = (Raise IndexError, b).
Proof.
  intros Hwf Hn. unfold get_cell, board_at, py_getitem2. f_equal.
  destruct (py_getitem (board b) row) as [r|e] eqn:E.
  - apply py_getitem_Ok in E as (k & Hk & Hr).
    destruct Hwf as [Hl Hrows]. rewrite Hl in Hk.
    apply py_norm_Some in Hk as [Hlt Hk].
    assert (Hlen : length r = 3%nat).
    { rewrite Forall_forall in Hrows. apply Hrows.
      eapply list_elem_of_lookup_2; eauto. }
    apply py_getitem_invalid. rewrite Hlen. unfold py_valid3 in Hn. lia.
  - now apply py_getitem_Raise in E as ->.
Qed.

(** ** get_cell and the index range *)




(** ** place_marker on in-bounds cells *)

(** A successful placement on an empty in-bounds cell, in terms of
    [set_cell]. *)
Lemma place_marker_empty b row col m :
  wf_board b -> in_bounds row col -> cell b row col = PyNone ->
  place_marker row col m b = (Ok tt, set_cell b row col m).
Proof.
  intros Hwf Hb Hc. revert Hc. to_grid b Hwf.
  bounds_cases Hb; cell_simpl; intros ->; reflexivity.
Qed.

(** C4. For an in-bounds coordinate and any marker (so for ['X'] and ['O']):
    if the cell is not [None], [place_marker] raises [ValueError] and the
    whole board is as before; if it is [None], [place_marker] succeeds and
    [get_cell] on the same coordinate then returns the marker. *)
Theorem place_marker_occupied_or_placed (b : Board) (row col : Z) (m : pyval) :
  wf_board b -> in_bounds row col ->
  exists v, get_cell row col b = (Ok v, b)
    /\ (v <> PyNone ->
        place_marker row col m b
        = (Raise (ValueError (occupied_msg row col)), b))
    /\ (v = PyNone ->
        exists b', place_marker row col m b = (Ok tt, b')
                   /\ get_cell row col b' = (Ok m, b')).
Proof.
  intros Hwf Hb. to_grid b Hwf.
  bounds_cases Hb;
    (eexists; split; [reflexivity|]; split;
     [ intros Hv;
       match goal with H : ?x <> PyNone |- _ => destruct x end;
       [congruence | reflexivity | reflexivity]
     | intros ->; eexists; split; reflexivity ]).
Qed.

Lemma place_marker_occupied_or_placed_witness :
  exists v, get_cell 0 0 (grid X PyNone PyNone PyNone PyNone PyNone PyNone PyNone PyNone)
            = (Ok v, grid X PyNone PyNone PyNone PyNone PyNone PyNone PyNone PyNone)
    /\ (v <> PyNone ->
        place_marker 0 0 O (grid X PyNone PyNone PyNone PyNone PyNone PyNone PyNone PyNone)
        = (Raise (ValueError (occupied_msg 0 0)),
           grid X PyNone PyNone PyNone PyNone PyNone PyNone PyNone PyNone))
    /\ (v = PyNone ->
        exists b', place_marker 0 0 O (grid X PyNone PyNone PyNone PyNone PyNone PyNone PyNone PyNone)
                   = (Ok tt, b')
                   /\ get_cell 0 0 b' = (Ok O, b')).
Proof.
  apply (place_marker_occupied_or_placed
           (grid X PyNone PyNone PyNone PyNone PyNone PyNone PyNone PyNone) 0 0 O).
  - apply grid_wf.
  - unfold in_bounds; lia.
Defined.

(** ** Write-once cells *)

Lemma run_op_cases op b :
  run_op op b = b
  \/ exists row col m n r k,
       op = OpPlaceMarker row col m
       /\ py_norm (length (board b)) row = Some n /\ board b !! n = Some r
       /\ py_norm (length r) col = Some k /\ r !! k = Some PyNone
       /\ run_op op b = {| board := <[n := <[k := m]> r]> (board b) |}.
Proof.
  destruct op as [row col | row col m | | |]; cbn [run_op].
  - left. apply read_only_get_cell.
  - pose proof (place_marker_cases b row col m) as H.
    destruct (py_getitem2 (board b) row col) as [v|e].
    + destruct (is_none v) eqn:Hv.
      * destruct H as (n & r & k & Hn & Hr & Hk & Hx & ->).
        apply is_none_spec in Hv as ->. right.
        exists row, col, m, n, r, k. auto 10.
      * rewrite H. now left.
    + rewrite H. now left.
  - left. apply read_only_is_full.
  - left. apply read_only_available_moves.
  - left. apply read_only_Board_str.
Qed.

(** C8. Whatever board operation runs ([get_cell], [place_marker],
    [is_full], [available_moves], [__str__]), with whatever arguments and
    whether it returns or raises, a cell that holds a marker beforehand
    holds the same marker afterwards.  This holds on every board, hence on
    every reachable one. *)
Theorem write_once (op : board_op) (b : Board) (row col : Z) (v : pyval) :
  get_cell row col b = (Ok v, b) -> v <> PyNone ->
  get_cell row col (run_op op b) = (Ok v, run_op op b).
Proof.
  intros Hget Hv.
  destruct (run_op_cases op b) as [-> | H]; [assumption|].
  destruct H as (r0 & c0 & m & n & r & k & _ & Hn & Hr & Hk & Hx & ->).
  unfold get_cell, board_at in *. simpl. f_equal.
  injection Hget as Hget.
  apply py_getitem2_Ok in Hget as (n' & r' & k' & Hn' & Hr' & Hk' & Hx').
  apply py_getitem2_Ok. rewrite length_insert.
  destruct (decide (n = n')) as [<- | Hne].
  - assert (r' = r) as -> by congruence.
    exists n, (<[k := m]> r), k'. rewrite length_insert.
    split; [assumption|]. split.
    + apply list_lookup_insert_eq. now apply lookup_lt_Some in Hr.
    + split; [assumption|].
      destruct (decide (k = k')) as [<- | Hk'']; [congruence|].
      now rewrite list_lookup_insert_ne.
  - exists n', r', k'. now rewrite list_lookup_insert_ne.
Qed.

Lemma write_once_witness :
  get_cell 0 0 (run_op (OpPlaceMarker 0 0 O)
                  (grid X PyNone PyNone PyNone PyNone PyNone PyNone PyNone PyNone))
  = (Ok X, run_op (OpPlaceMarker 0 0 O)
             (grid X PyNone PyNone PyNone PyNone PyNone PyNone PyNone PyNone)).
Proof.
  apply (write_once (OpPlaceMarker 0 0 O)
           (grid X PyNone PyNone PyNone PyNone PyNone PyNone PyNone PyNone)
           0 0 X).
  - reflexivity.
  - discriminate.
Defined.

(** ** Rendering *)

(** C9. The board with ['X'] at (0,0) and ['O'] at (1,1) and nothing else
    renders as the three rows ["X| | "], [" |O| "], [" | | "] with the
    divider ["-+-+-"] between them, joined by newlines. *)
Theorem str_of_sample_board :
  (place_marker 0 0 X ;;; place_marker 1 1 O ;;; Board_str) Board_init
  = (Ok ("X| | " ++ nl ++ "-+-+-" ++ nl ++ " |O| " ++ nl ++ "-+-+-" ++ nl
         ++ " | | "),
     grid X PyNone PyNone PyNone O PyNone PyNone PyNone PyNone).
Proof. vm_compute. reflexivity. Qed.

(** ** Placing [None] *)

(** C10. [place_marker] does not look at its marker: placing [None] on an
    empty in-bounds cell raises nothing and leaves that cell empty, so
    [available_moves] answers as before and a further [place_marker] on the
    same cell (with any marker) succeeds as well. *)
Theorem place_marker_none_is_accepted (b : Board) (row col : Z) :
  wf_board b -> in_bounds row col ->
  get_cell row col b = (Ok PyNone, b) ->
  exists b', place_marker row col PyNone b = (Ok tt, b')
    /\ get_cell row col b' = (Ok PyNone, b')
    /\ fst (available_moves b') = fst (available_moves b)
    /\ forall m, exists b'', place_marker row col m b' = (Ok tt, b'').
Proof.
  intros Hwf Hb Hget.
  assert (Hc : cell b row col = PyNone).
  { rewrite (get_cell_wf b row col Hwf Hb) in Hget. congruence. }
  assert (Hsame : place_marker row col PyNone b = (Ok tt, b)).
  { revert Hc. to_grid b Hwf. bounds_cases Hb; cell_simpl; intros ->;
      reflexivity. }
  exists b. repeat split; try assumption.
  intros m. exists (set_cell b row col m). now apply place_marker_empty.
Qed.

Lemma place_marker_none_is_accepted_witness :
  exists b', place_marker 1 1 PyNone Board_init = (Ok tt, b')
    /\ get_cell 1 1 b' = (Ok PyNone, b')
    /\ fst (available_moves b') = fst (available_moves Board_init)
    /\ forall m, exists b'', place_marker 1 1 m b' = (Ok tt, b'').
Proof.
  apply (place_marker_none_is_accepted Board_init 1 1).
  - apply Board_init_wf.
  - unfold in_bounds; lia.
  - reflexivity.
Defined.

(** ** Counting the available moves *)

Lemma avail_len_grid a b c d e f g h i :
  length (avail_pure (grid a b c d e f g h i))
  = (none_count a + none_count b + none_count c + none_count d
     + none_count e + none_count f + none_count g + none_count h
     + none_count i)%nat.
Proof.
  unfold avail_pure, positions, none_count. cbn -[cell]. cell_simpl.
  destruct (is_none a), (is_none b), (is_none c), (is_none d), (is_none e),
    (is_none f), (is_none g), (is_none h), (is_none i); reflexivity.
Qed.

Lemma set_cell_wf b row col m : wf_board b -> wf_board (set_cell b row col m).
Proof.
  intros [Hl Hrows]. unfold set_cell, py_setitem2.
  destruct (py_norm _ row) as [n|]; [|now split].
  destruct (board b !! n) as [r|] eqn:Hr; [|now split].
  unfold py_setitem. destruct (py_norm _ col) as [k|]; [|now split].
  split; simpl.
  - now rewrite length_insert.
  - apply Forall_insert; [assumption|]. rewrite length_insert.
    rewrite Forall_forall in Hrows. apply Hrows.
    eapply list_elem_of_lookup_2; eauto.
Qed.

(** A successful [place_marker] of something other than [None] takes one
    move away, whatever (possibly negative) indices address the cell. *)
Lemma place_marker_avail b row col m b' :
  wf_board b -> m <> PyNone ->
  place_marker row col m b = (Ok tt, b') ->
  wf_board b' /\ length (avail_pure b) = S (length (avail_pure b')).
Proof.
  intros Hwf Hm Hp.
  assert (Hv : py_valid3 row /\ py_valid3 col).
  { destruct (decide (-3 <= row <= 2)) as [Hr|Hr];
      destruct (decide (-3 <= col <= 2)) as [Hc|Hc];
      try (split; assumption);
      exfalso;
      (assert (Hg : get_cell row col b = (Raise IndexError, b))
         by (apply get_cell_invalid; [assumption | unfold py_valid3; tauto]));
      unfold place_marker in Hp;
      rewrite (bind_raise _ _ _ _ _ Hg) in Hp; discriminate. }
  destruct Hv as [Hr Hc].
  apply place_marker_set_cell in Hp as [Hcell ->].
  split; [now apply set_cell_wf|].
  revert Hcell. to_grid b Hwf.
  valid_cases Hr; valid_cases Hc; cell_simpl; intros ->;
    match goal with
    | |- context [set_cell ?g ?r ?k ?x] =>
        let v := eval vm_compute in (set_cell g r k x) in
        change (set_cell g r k x) with v
    end;
    match goal with
    | |- context [{| board := ?l |}] =>
        match l with
        | [[?a1; ?a2; ?a3]; [?b1; ?b2; ?b3]; [?c1; ?c2; ?c3]] =>
            change {| board := l |} with (grid a1 a2 a3 b1 b2 b3 c1 c2 c3)
        end
    end;
    rewrite !avail_len_grid; unfold none_count;
    destruct m; simpl; try congruence; lia.
Qed.

(** C7, as the claim states it, fails: [place_marker(0, 0, None)] on a fresh
    board succeeds, and [available_moves] still has 9 elements. *)
Lemma place_none_keeps_available_moves :
  exists b' l l',
    place_marker 0 0 PyNone Board_init = (Ok tt, b')
    /\ available_moves Board_init = (Ok l, Board_init)
    /\ available_moves b' = (Ok l', b')
    /\ length l = 9%nat /\ length l' = 9%nat.
Proof.
  exists Board_init. do 2 eexists.
  repeat split; reflexivity.
Qed.

(** C7 (amended). On a fresh board [available_moves] has exactly 9
    elements, and after every successful [place_marker] of a marker other
    than [None] (on a 3x3 board, whichever valid indices address the cell)
    it has exactly one element fewer. *)
Theorem available_moves_count (b : Board) (row col : Z) (m : pyval) (b' : Board) :
  wf_board b -> m <> PyNone ->
  place_marker row col m b = (Ok tt, b') ->
  (exists l0, available_moves Board_init = (Ok l0, Board_init)
              /\ length l0 = 9%nat)
  /\ exists l l', available_moves b = (Ok l, b)
                  /\ available_moves b' = (Ok l', b')
                  /\ length l = S (length l').
Proof.
  intros Hwf Hm Hp. split.
  - eexists. split; reflexivity.
  - destruct (place_marker_avail b row col m b' Hwf Hm Hp) as [Hwf' Hlen].
    exists (avail_pure b), (avail_pure b').
    now rewrite (available_moves_wf b Hwf), (available_moves_wf b' Hwf').
Qed.

Lemma available_moves_count_witness :
  (exists l0, available_moves Board_init = (Ok l0, Board_init)
              /\ length l0 = 9%nat)
  /\ exists l l',
       available_moves Board_init = (Ok l, Board_init)
       /\ available_moves (grid PyNone PyNone PyNone PyNone PyNone PyNone PyNone PyNone X)
          = (Ok l', grid PyNone PyNone PyNone PyNone PyNone PyNone PyNone PyNone X)
       /\ length l = S (length l').
Proof.
  apply (available_moves_count Board_init (-1) (-1) X
           (grid PyNone PyNone PyNone PyNone PyNone PyNone PyNone PyNone X)).
  - apply Board_init_wf.
  - discriminate.
  - reflexivity.
Defined.

(** ** RandomBot.make_move *)

Lemma on_board_ro {A} (c : M Board A) (r : result A) w :
  c (w_board w) = (r, w_board w) -> on_board c w = (r, w).
Proof. destruct w. unfold on_board, set_board. simpl. now intros ->. Qed.

(** [random.choice] of a non-empty list returns one of its elements and
    uses one draw. *)
Lemma random_choice_in rnd {A} (x0 : A) (xs : list A) w :
  exists x, In x (x0 :: xs)
    /\ random_choice rnd (x0 :: xs) w
       = (Ok x, {| w_board := w_board w;
                   w_current_player := w_current_player w;
                   w_stdout := w_stdout w; w_rng := S (w_rng w) |}).
Proof.
  unfold random_choice.
  destruct ((x0 :: xs) !! (rnd (w_rng w) mod length (x0 :: xs))%nat)
    as [x|] eqn:E.
  - exists x. split; [|reflexivity].
    apply list_elem_of_In. eapply list_elem_of_lookup_2; eauto.
  - apply lookup_ge_None in E.
    pose proof (Nat.mod_upper_bound (rnd (w_rng w)) (length (x0 :: xs))) as Hlt.
    simpl in *. lia.
Qed.

(** What [make_move] does on a 3x3 board. *)
Lemma make_move_wf rnd self w :
  wf_board (w_board w) ->
  (avail_pure (w_board w) = []
   /\ make_move rnd self w = (Raise (ValueError "No available moves"), w))
  \/ exists row col,
       In (row, col) (avail_pure (w_board w))
       /\ place_marker row col (marker self) (w_board w)
          = (Ok tt, set_cell (w_board w) row col (marker self))
       /\ make_move rnd self w
          = (Ok (row, col),
             {| w_board := set_cell (w_board w) row col (marker self);
                w_current_player := w_current_player w;
                w_stdout := w_stdout w; w_rng := S (w_rng w) |}).
Proof.
  intros Hwf. unfold make_move.
  rewrite (bind_ok _ _ _ _ _
             (on_board_ro _ _ w (available_moves_wf _ Hwf))).
  destruct (avail_pure (w_board w)) as [|rc0 rest] eqn:Hav.
  - left. split; reflexivity.
  - right.
    destruct (random_choice_in rnd rc0 rest w) as ([row col] & Hin & Hch).
    exists row, col. split; [assumption|].
    rewrite <- Hav in Hin. apply in_avail_pure in Hin as [Hb Hc].
    pose proof (place_marker_empty _ row col (marker self) Hwf Hb Hc) as Hp.
    split; [assumption|].
    rewrite (bind_ok _ _ _ _ _ Hch).
    erewrite bind_ok; [reflexivity|].
    unfold on_board. cbn [fst snd w_board]. now rewrite Hp.
Qed.

(** C5. On a 3x3 board [make_move] raises [ValueError("No available
    moves")] exactly when [available_moves] is empty, and then the board
    (and everything else) is as before; otherwise it picks one of the
    available coordinates, places the bot's marker there with
    [place_marker], which succeeds, and returns that coordinate. *)
Theorem make_move_spec (rnd : nat -> nat) (self : RandomBot) (w : World) :
  wf_board (w_board w) ->
  exists moves,
    available_moves (w_board w) = (Ok moves, w_board w)
    /\ ((exists w', make_move rnd self w
                    = (Raise (ValueError "No available moves"), w'))
        <-> moves = [])
    /\ (moves = [] ->
        make_move rnd self w = (Raise (ValueError "No available moves"), w))
    /\ (moves <> [] ->
        exists row col b',
          In (row, col) moves
          /\ place_marker row col (marker self) (w_board w) = (Ok tt, b')
          /\ make_move rnd self w
             = (Ok (row, col),
                {| w_board := b'; w_current_player := w_current_player w;
                   w_stdout := w_stdout w; w_rng := S (w_rng w) |})).
Proof.
  intros Hwf. exists (avail_pure (w_board w)).
  split; [now apply available_moves_wf|].
  destruct (make_move_wf rnd self w Hwf)
    as [[Hnil Hmm] | (row & col & Hin & Hp & Hmm)].
  - rewrite Hnil. repeat split; eauto. congruence.
  - split; [|split].
    + split.
      * intros [w' Hw']. rewrite Hmm in Hw'. discriminate.
      * intros Hnil. rewrite Hnil in Hin. destruct Hin.
    + intros Hnil. rewrite Hnil in Hin. destruct Hin.
    + intros _. eauto 10.
Qed.

Lemma make_move_spec_witness :
  exists moves,
    available_moves Board_init = (Ok moves, Board_init)
    /\ ((exists w', make_move (fun n => n) {| marker := X |}
                      {| w_board := Board_init; w_current_player := X;
                         w_stdout := []; w_rng := 4 |}
                    = (Raise (ValueError "No available moves"), w'))
        <-> moves = [])
    /\ (moves = [] ->
        make_move (fun n => n) {| marker := X |}
          {| w_board := Board_init; w_current_player := X;
             w_stdout := []; w_rng := 4 |}
        = (Raise (ValueError "No available moves"),
           {| w_board := Board_init; w_current_player := X;
              w_stdout := []; w_rng := 4 |}))
    /\ (moves <> [] ->
        exists row col b',
          In (row, col) moves
          /\ place_marker row col X Board_init = (Ok tt, b')
          /\ make_move (fun n => n) {| marker := X |}
               {| w_board := Board_init; w_current_player := X;
                  w_stdout := []; w_rng := 4 |}
             = (Ok (row, col),
                {| w_board := b'; w_current_player := X;
                   w_stdout := []; w_rng := 5 |})).
Proof.
  apply (make_move_spec (fun n => n) {| marker := X |}
           {| w_board := Board_init; w_current_player := X;
              w_stdout := []; w_rng := 4 |}).
  apply Board_init_wf.
Defined.

(** ** Rendering a game board *)

Lemma Board_str_ok b :
  wf_board b -> game_board b -> exists s, Board_str b = (Ok s, b).
Proof.
  intros Hwf Hg. unfold Board_str.
  erewrite bind_ok; [eexists; reflexivity|].
  apply for_acc_ro with
    (f := fun result row =>
       let row_str := fold_left (fun row_str col =>
           let r := row_str ++ cell_text (cell b row col) in
           if col <? 2 then r ++ "|" else r) (py_range 3) "" in
       let result := (result ++ [row_str])%list in
       if row <? 2 then (result ++ ["-+-+-"])%list else result).
  intros row acc Hrow.
  erewrite bind_ok; cycle 1.
  { apply for_acc_ro with
      (f := fun row_str col =>
         let r := row_str ++ cell_text (cell b row col) in
         if col <? 2 then r ++ "|" else r).
    intros col acc' Hcol.
    pose proof (in_bounds_range _ _ Hrow Hcol) as Hb.
    rewrite (bind_ok _ _ _ _ _ (board_at_wf b row col Hwf Hb)).
    destruct (Hg row col Hb) as [-> | [-> | ->]]; simpl;
      now destruct (col <? 2). }
  simpl. now destruct (row <? 2).
Qed.

(** ** The board after a move *)

Ltac set_cell_simpl :=
  match goal with
  | |- context [set_cell ?g ?r ?k ?x] =>
      let v := eval vm_compute in (set_cell g r k x) in
      change (set_cell g r k x) with v
  end;
  match goal with
  | |- context [{| board := ?l |}] =>
      match l with
      | [[?a1; ?a2; ?a3]; [?b1; ?b2; ?b3]; [?c1; ?c2; ?c3]] =>
          change {| board := l |} with (grid a1 a2 a3 b1 b2 b3 c1 c2 c3)
      end
  end.

Lemma cell_set_cell b row col m i j :
  wf_board b -> in_bounds row col -> in_bounds i j ->
  cell (set_cell b row col m) i j
  = if (i =? row) && (j =? col) then m else cell b i j.
Proof.
  intros Hwf Hb Hij. to_grid b Hwf.
  bounds_cases Hb; bounds_cases Hij; reflexivity.
Qed.

Lemma set_cell_game b row col m :
  wf_board b -> in_bounds row col -> game_board b -> game_cell m ->
  game_board (set_cell b row col m).
Proof.
  intros Hwf Hb Hg Hm i j Hij. rewrite (cell_set_cell b row col m i j Hwf Hb Hij).
  destruct ((i =? row) && (j =? col)); [assumption | now apply Hg].
Qed.

(** A move of one player completes no line of the other. *)
Lemma win_pure_set_cell b row col m m' :
  wf_board b -> in_bounds row col -> cell b row col = PyNone ->
  py_eq m m' = false -> py_eq PyNone m' = false ->
  win_pure m' (set_cell b row col m) = win_pure m' b.
Proof.
  intros Hwf Hb Hc Hm Hn. revert Hc. to_grid b Hwf.
  bounds_cases Hb; cell_simpl; intros ->; set_cell_simpl;
    rewrite !win_pure_grid, Hm, Hn; reflexivity.
Qed.

(** ** One turn of the game loop *)

Lemma loop_body_step rnd b p out n :
  wf_board b -> game_board b -> avail_pure b <> [] -> p = X \/ p = O ->
  exists row col s,
    In (row, col) (avail_pure b)
    /\ Board_str (set_cell b row col p) = (Ok s, set_cell b row col p)
    /\ loop_body rnd main_runner
         {| w_board := b; w_current_player := p; w_stdout := out; w_rng := n |}
       = let b' := set_cell b row col p in
         let out' := (out ++ [player_line p; s])%list in
         if win_pure p b' then
           (Ok (Some (Won p)),
            {| w_board := b'; w_current_player := p;
               w_stdout := (out' ++ [won_line p])%list;
               w_rng := S n |})
         else if full_pure b' && negb (win_pure X b') && negb (win_pure O b') then
           (Ok (Some Draw),
            {| w_board := b'; w_current_player := p;
               w_stdout := (out' ++ [draw_line])%list;
               w_rng := S n |})
         else
           (Ok None,
            {| w_board := b'; w_current_player := (if py_eq p X then O else X);
               w_stdout := out'; w_rng := S n |}).
Proof.
  intros Hwf Hg Hav Hp.
  set (w1 := {| w_board := b; w_current_player := p;
                w_stdout := (out ++ [player_line p])%list;
                w_rng := n |}).
  assert (Hbot : (if py_eq p X then make_move rnd (bot_x main_runner)
                  else make_move rnd (bot_o main_runner))
                 = make_move rnd {| marker := p |}).
  { destruct Hp as [-> | ->]; reflexivity. }
  destruct (make_move_wf rnd {| marker := p |} w1 Hwf)
    as [[Hnil _] | (row & col & Hin & Hpl & Hmm)]; [contradiction|].
  cbn [marker w_board w1] in Hin, Hpl, Hmm.
  pose proof Hin as Hin'. apply in_avail_pure in Hin' as [Hb Hc].
  assert (Hwf' : wf_board (set_cell b row col p)) by now apply set_cell_wf.
  assert (Hg' : game_board (set_cell b row col p)).
  { apply set_cell_game; try assumption. unfold game_cell. tauto. }
  destruct (Board_str_ok _ Hwf' Hg') as [s Hs].
  exists row, col, s. split; [assumption|]. split; [assumption|].
  cbv zeta.
  set (b' := set_cell b row col p) in *.
  unfold w1 in Hmm. cbn [w_current_player w_stdout w_rng] in Hmm.
  set (w2 := {| w_board := b'; w_current_player := p;
                w_stdout := (out ++ [player_line p])%list;
                w_rng := S n |}) in *.
  set (w3 := {| w_board := b'; w_current_player := p;
                w_stdout := (out ++ [player_line p; s])%list;
                w_rng := S n |}).
  assert (Hpr : print s w2 = (Ok tt, w3)).
  { unfold print, w2, w3. cbn. now rewrite <- app_assoc. }
  unfold loop_body.
  unfold bind at 1. cbn [get_current_player w_current_player].
  rewrite Hbot.
  unfold bind at 1. cbn [print w_current_player w_board w_stdout w_rng].
  unfold bind at 1. unfold catch. rewrite Hmm.
  rewrite (bind_ok _ _ _ _ _ (on_board_ro _ _ w2 Hs)).
  rewrite (bind_ok _ _ _ _ _ Hpr).
  unfold bind at 1. cbn [get_current_player w_current_player w3].
  rewrite (bind_ok _ _ _ _ _ (on_board_ro _ _ w3 (check_win_wf p b' Hwf'))).
  destruct (win_pure p b'); [reflexivity|].
  rewrite (bind_ok _ _ _ _ _ (on_board_ro _ _ w3 (check_draw_wf b' Hwf'))).
  destruct (full_pure b' && negb (win_pure X b') && negb (win_pure O b'));
    reflexivity.
Qed.

(** A turn taken from a state of the game either ends the game or leads
    to the state one move later; it never raises and never aborts. *)
Lemma loop_body_inv rnd n0 k w :
  game_inv n0 k w ->
  match loop_body rnd main_runner w with
  | (Ok None, w') => game_inv n0 (S k) w'
  | (Ok (Some o), w') => game_over n0 o w'
  | (Raise _, _) => False
  end.
Proof.
  destruct w as [b p out n]. unfold game_inv. cbn [w_board w_current_player w_rng].
  intros (Hwf & Hg & Hlen & Hk & Hn & Hp & HwX & HwO).
  assert (Hav : avail_pure b <> []).
  { intros E. rewrite E in Hlen. simpl in Hlen. lia. }
  destruct (loop_body_step rnd b p out n Hwf Hg Hav Hp)
    as (row & col & s & Hin & _ & ->).
  cbv zeta. apply in_avail_pure in Hin as [Hb Hc].
  set (b' := set_cell b row col p).
  assert (Hpne : p <> PyNone) by (destruct Hp as [-> | ->]; discriminate).
  pose proof (place_marker_empty b row col p Hwf Hb Hc) as Hpl.
  destruct (place_marker_avail b row col p b' Hwf Hpne Hpl) as [Hwf' Hlen'].
  assert (Hg' : game_board b').
  { apply set_cell_game; try assumption. unfold game_cell. tauto. }
  assert (Hlast : forall (l : list string) x, last (l ++ [x])%list = Some x).
  { intros l x. apply last_snoc. }
  destruct (win_pure p b') eqn:Hwin.
  { unfold game_over. cbn [w_board w_rng w_stdout final_line].
    rewrite Hlast. repeat split; try lia.
    destruct Hp as [-> | ->]; auto. }
  destruct (full_pure b' && negb (win_pure X b') && negb (win_pure O b'))
    eqn:Hdraw.
  { unfold game_over. cbn [w_board w_rng w_stdout final_line].
    rewrite Hlast. repeat split; try lia. auto. }
  unfold game_inv. cbn [w_board w_current_player w_rng].
  assert (Hwins : win_pure X b' = false /\ win_pure O b' = false).
  { destruct Hp as [-> | ->].
    - split; [assumption|].
      unfold b'. rewrite win_pure_set_cell; auto.
    - split; [|assumption].
      unfold b'. rewrite win_pure_set_cell; auto. }
  destruct Hwins as [HwX' HwO'].
  assert (Hfull : full_pure b' = false).
  { rewrite HwX', HwO' in Hdraw. simpl in Hdraw.
    now rewrite !andb_true_r in Hdraw. }
  assert (Hav' : avail_pure b' <> []).
  { intros E. apply (full_pure_avail b' Hwf') in E. congruence. }
  assert (Hpos : (1 <= length (avail_pure b'))%nat).
  { destruct (avail_pure b'); [congruence | simpl; lia]. }
  split; [exact Hwf'|]. split; [exact Hg'|].
  repeat split; try assumption; try lia.
  destruct Hp as [-> | ->]; auto.
Qed.

(** ** The whole game *)

Lemma run_loop_game rnd n0 j : forall k w,
  game_inv n0 k w -> (k + j = 9)%nat ->
  exists o w',
    (forall extra, run_loop rnd main_runner (j + extra) w = Some (Ok o, w'))
    /\ game_over n0 o w'.
Proof.
  induction j as [|j IH]; intros k w Hinv Hkj.
  - destruct Hinv as (_ & _ & _ & Hk & _). lia.
  - pose proof (loop_body_inv rnd n0 k w Hinv) as Hstep.
    destruct (loop_body rnd main_runner w) as [[[o|]|e] w'] eqn:Hbody.
    + exists o, w'. split; [|assumption].
      intros extra. simpl. now rewrite Hbody.
    + destruct (IH (S k) w' Hstep ltac:(lia)) as (o & w'' & Hrun & Hover).
      exists o, w''. split; [|assumption].
      intros extra. simpl. rewrite Hbody. apply Hrun.
    + destruct Hstep.
Qed.

Lemma game_inv_init n0 out :
  game_inv n0 0 {| w_board := Board_init; w_current_player := X;
                   w_stdout := out; w_rng := n0 |}.
Proof.
  unfold game_inv. cbn [w_board w_current_player w_rng].
  split; [apply Board_init_wf|]. split.
  - intros row col Hb. bounds_cases Hb; left; reflexivity.
  - repeat split; try reflexivity; try lia. now left.
Qed.

(** C3. A match run by [run_game] from an empty board with ['X'] to move
    and the two bots of [main] ends, whatever the random generator
    produces: nine turns of the loop are enough (more fuel changes
    nothing), the run ends by ['X'] winning, ['O'] winning or a draw and
    never by the error branch or an exception, between one and nine moves
    have been made, exactly that many cells are marked, and the verdict is
    the last line printed. *)
Theorem run_game_terminates (rnd : nat -> nat) (out : list string) (n0 : nat) :
  exists o w',
    (forall extra,
       run_game rnd main_runner (9 + extra) (GameRunner_init Board_init out n0)
       = Some (Ok o, w'))
    /\ (o = Won X \/ o = Won O \/ o = Draw)
    /\ (n0 < w_rng w' <= n0 + 9)%nat
    /\ length (avail_pure (w_board w')) = (9 - (w_rng w' - n0))%nat
    /\ last (w_stdout w') = Some (final_line o).
Proof.
  assert (Hg0 : game_board Board_init).
  { intros row col Hb. bounds_cases Hb; left; reflexivity. }
  destruct (Board_str_ok Board_init Board_init_wf Hg0) as [s0 Hs0].
  set (w0 := {| w_board := Board_init; w_current_player := X;
                w_stdout := (out ++ [start_line; initial_line; s0])%list;
                w_rng := n0 |}).
  destruct (run_loop_game rnd n0 9 0%nat w0 (game_inv_init n0 _) eq_refl)
    as (o & w' & Hrun & Hover).
  exists o, w'. split; [|exact Hover].
  intros extra. unfold run_game.
  replace ((print start_line;;; print initial_line;;;
            s <- on_board Board_str;; print s)
             (GameRunner_init Board_init out n0))
    with (@Ok unit tt, w0).
  - apply Hrun.
  - unfold w0, GameRunner_init, bind, print, on_board, set_board.
    cbn [w_board w_current_player w_stdout w_rng].
    rewrite Hs0. cbn [w_board w_current_player w_stdout w_rng].
    rewrite <- !app_assoc. reflexivity.
Qed.

(** * Further properties of the code *)

(** ** Board queries *)

(** X1. [is_full] answers [True] exactly when none of the nine cells reads
    as [None]; the board is left as it was. *)
Theorem is_full_iff_no_empty_cell (b : Board) :
  wf_board b ->
  exists v, is_full b = (Ok v, b) /\ (v = true <-> no_empty_cell b).
Proof.
  intros Hwf. exists (full_pure b). split; [now apply is_full_wf|].
  now apply full_pure_no_empty_cell.
Qed.

Lemma is_full_iff_no_empty_cell_witness :
  exists v, is_full (grid X O X X O O O X X)
            = (Ok v, grid X O X X O O O X X)
    /\ (v = true <-> no_empty_cell (grid X O X X O O O X X)).
Proof. apply (is_full_iff_no_empty_cell (grid X O X X O O O X X)), grid_wf. Defined.

Lemma sublist_filter_bool {A} (f : A -> bool) (l : list A) :
  sublist (List.filter f l) l.
Proof.
  induction l as [|x l IH]; simpl; [constructor|].
  destruct (f x); now constructor.
Qed.

Lemma NoDup_positions : NoDup positions.
Proof. apply (bool_decide_unpack _). vm_compute. exact I. Qed.

(** X2. [available_moves] returns exactly the in-bounds coordinates whose
    cell reads as [None], each once, in row-major order. *)
Theorem available_moves_exact (b : Board) :
  wf_board b ->
  exists l, available_moves b = (Ok l, b)
    /\ (forall row col,
          In (row, col) l
          <-> in_bounds row col /\ get_cell row col b = (Ok PyNone, b))
    /\ NoDup l /\ sublist l positions.
Proof.
  intros Hwf. exists (avail_pure b).
  split; [now apply available_moves_wf|]. split; [|split].
  - intros row col. rewrite in_avail_pure. split.
    + intros [Hb Hc]. split; [assumption|].
      now rewrite (get_cell_wf b row col Hwf Hb), Hc.
    + intros [Hb Hg]. split; [assumption|].
      rewrite (get_cell_wf b row col Hwf Hb) in Hg. congruence.
  - eapply sublist_NoDup; [apply NoDup_positions | apply sublist_filter_bool].
  - apply sublist_filter_bool.
Qed.

Lemma available_moves_exact_witness :
  exists l, available_moves (grid X PyNone PyNone PyNone O PyNone PyNone PyNone PyNone)
            = (Ok l, grid X PyNone PyNone PyNone O PyNone PyNone PyNone PyNone)
    /\ (forall row col,
          In (row, col) l
          <-> in_bounds row col
              /\ get_cell row col (grid X PyNone PyNone PyNone O PyNone PyNone PyNone PyNone)
                 = (Ok PyNone, grid X PyNone PyNone PyNone O PyNone PyNone PyNone PyNone))
    /\ NoDup l /\ sublist l positions.
Proof.
  apply (available_moves_exact
           (grid X PyNone PyNone PyNone O PyNone PyNone PyNone PyNone)), grid_wf.
Defined.

(** X3. [is_full] and [available_moves] agree: the board is full exactly
    when there is no move left. *)
Theorem is_full_iff_no_moves (b : Board) :
  wf_board b ->
  exists v l, is_full b = (Ok v, b) /\ available_moves b = (Ok l, b)
              /\ (v = true <-> l = []).
Proof.
  intros Hwf. exists (full_pure b), (avail_pure b).
  split; [now apply is_full_wf|]. split; [now apply available_moves_wf|].
  now apply full_pure_avail.
Qed.

Lemma is_full_iff_no_moves_witness :
  exists v l, is_full Board_init = (Ok v, Board_init)
              /\ available_moves Board_init = (Ok l, Board_init)
              /\ (v = true <-> l = []).
Proof. apply (is_full_iff_no_moves Board_init), Board_init_wf. Defined.

(** ** place_marker: indices, frame, shape, order *)

Lemma bind_Ok_inv {S A B} (c : M S A) (k : A -> M S B) s v s' :
  bind c k s = (Ok v, s') ->
  exists a s1, c s = (Ok a, s1) /\ k a s1 = (Ok v, s').
Proof.
  unfold bind. destruct (c s) as [[a|e] s1]; [eauto | discriminate].
Qed.

(** X4. An index outside [-3..2] makes [place_marker] raise [IndexError],
    whatever the cell contents and the marker, and the board is as
    before. *)
Theorem place_marker_index_error (b : Board) (row col : Z) (m : pyval) :
  wf_board b -> ~ (py_valid3 row /\ py_valid3 col) ->
  place_marker row col m b = (Raise IndexError, b).
Proof.
  intros Hwf Hn. unfold place_marker.
  apply bind_raise. now apply get_cell_invalid.
Qed.

Lemma place_marker_index_error_witness :
  place_marker 0 3 X Board_init = (Raise IndexError, Board_init).
Proof.
  apply (place_marker_index_error Board_init 0 3 X).
  - apply Board_init_wf.
  - unfold py_valid3. lia.
Defined.

Lemma place_marker_valid b row col m b' :
  wf_board b -> place_marker row col m b = (Ok tt, b') ->
  py_valid3 row /\ py_valid3 col.
Proof.
  intros Hwf Hp.
  destruct (decide (py_valid3 row /\ py_valid3 col)) as [H|H]; [exact H|].
  unfold place_marker in Hp.
  rewrite (bind_raise _ _ _ _ _ (get_cell_invalid b row col Hwf H)) in Hp.
  discriminate.
Qed.

Lemma set_cell_wrap b row col m :
  wf_board b -> py_valid3 row -> py_valid3 col ->
  set_cell b row col m = set_cell b (wrap3 row) (wrap3 col) m
  /\ cell b row col = cell b (wrap3 row) (wrap3 col)
  /\ in_bounds (wrap3 row) (wrap3 col).
Proof.
  intros Hwf Hr Hc. to_grid b Hwf.
  valid_cases Hr; valid_cases Hc;
    (split; [reflexivity|]; split; [reflexivity|];
     unfold in_bounds, wrap3; simpl; lia).
Qed.

(** A successful [place_marker], described by the position it addressed. *)
Lemma place_marker_Ok_iff b row col m b' :
  wf_board b ->
  place_marker row col m b = (Ok tt, b') <->
  py_valid3 row /\ py_valid3 col
  /\ cell b (wrap3 row) (wrap3 col) = PyNone
  /\ b' = set_cell b (wrap3 row) (wrap3 col) m.
Proof.
  intros Hwf. split.
  - intros Hp. destruct (place_marker_valid b row col m b' Hwf Hp) as [Hr Hc].
    destruct (set_cell_wrap b row col m Hwf Hr Hc) as (Hs & Hcell & _).
    apply place_marker_set_cell in Hp as [Hnone ->].
    rewrite <- Hcell, <- Hs. auto.
  - intros (Hr & Hc & Hnone & ->).
    destruct (set_cell_wrap b row col m Hwf Hr Hc) as (Hs & Hcell & Hb).
    rewrite <- Hcell in Hnone. rewrite <- Hs. clear Hs Hcell Hb.
    revert Hnone. to_grid b Hwf.
    valid_cases Hr; valid_cases Hc; cell_simpl; intros ->; reflexivity.
Qed.

(** X5. A negative index addresses the cell counted from the end:
    [place_marker(row, col, m)] with indices in [-3..2] succeeds exactly
    when [place_marker] on the same cell written with indices in [0..2]
    succeeds, and leaves the same board. *)
Theorem place_marker_negative_index (b : Board) (row col : Z) (m : pyval)
    (b' : Board) :
  wf_board b -> py_valid3 row -> py_valid3 col ->
  place_marker row col m b = (Ok tt, b')
  <-> place_marker (wrap3 row) (wrap3 col) m b = (Ok tt, b').
Proof.
  intros Hwf Hr Hc.
  destruct (set_cell_wrap b row col m Hwf Hr Hc) as (_ & _ & Hb).
  assert (Hv : py_valid3 (wrap3 row) /\ py_valid3 (wrap3 col)).
  { unfold in_bounds, py_valid3 in *. lia. }
  assert (Hw : forall i, 0 <= i <= 2 -> wrap3 i = i).
  { intros i Hi. unfold wrap3. destruct (Z.ltb_spec i 0); lia. }
  rewrite !(place_marker_Ok_iff b _ _ m b' Hwf).
  destruct Hb as [Hb1 Hb2]. rewrite !(Hw _ Hb1), !(Hw _ Hb2). tauto.
Qed.

Lemma place_marker_negative_index_witness :
  place_marker (-1) (-3) X Board_init
  = (Ok tt, grid PyNone PyNone PyNone PyNone PyNone PyNone X PyNone PyNone)
  <-> place_marker (wrap3 (-1)) (wrap3 (-3)) X Board_init
      = (Ok tt, grid PyNone PyNone PyNone PyNone PyNone PyNone X PyNone PyNone).
Proof.
  apply (place_marker_negative_index Board_init (-1) (-3) X).
  - apply Board_init_wf.
  - unfold py_valid3; lia.
  - unfold py_valid3; lia.
Defined.

(** X6. A successful [place_marker] writes the marker into the cell it
    addressed and changes no other cell. *)
Theorem place_marker_changes_one_cell (b : Board) (row col : Z) (m : pyval)
    (b' : Board) :
  wf_board b -> place_marker row col m b = (Ok tt, b') ->
  get_cell (wrap3 row) (wrap3 col) b' = (Ok m, b')
  /\ forall i j, in_bounds i j -> (i, j) <> (wrap3 row, wrap3 col) ->
       fst (get_cell i j b') = fst (get_cell i j b).
Proof.
  intros Hwf Hp.
  apply (place_marker_Ok_iff b row col m b' Hwf) in Hp
    as (Hr & Hc & Hnone & ->).
  destruct (set_cell_wrap b row col m Hwf Hr Hc) as (_ & _ & Hb).
  pose proof (set_cell_wf b (wrap3 row) (wrap3 col) m Hwf) as Hwf'.
  split.
  - rewrite (get_cell_wf _ _ _ Hwf' Hb), (cell_set_cell b _ _ m _ _ Hwf Hb Hb).
    now rewrite !Z.eqb_refl.
  - intros i j Hij Hne.
    rewrite (get_cell_wf _ _ _ Hwf' Hij), (get_cell_wf _ _ _ Hwf Hij).
    rewrite (cell_set_cell b _ _ m _ _ Hwf Hb Hij). simpl.
    destruct (Z.eqb_spec i (wrap3 row)), (Z.eqb_spec j (wrap3 col)); simpl;
      congruence.
Qed.

Lemma place_marker_changes_one_cell_witness :
  get_cell (wrap3 1) (wrap3 (-1))
    (grid X PyNone PyNone PyNone PyNone O PyNone PyNone PyNone)
  = (Ok O, grid X PyNone PyNone PyNone PyNone O PyNone PyNone PyNone)
  /\ forall i j, in_bounds i j -> (i, j) <> (wrap3 1, wrap3 (-1)) ->
       fst (get_cell i j (grid X PyNone PyNone PyNone PyNone O PyNone PyNone PyNone))
       = fst (get_cell i j (grid X PyNone PyNone PyNone PyNone PyNone PyNone PyNone PyNone)).
Proof.
  apply (place_marker_changes_one_cell
           (grid X PyNone PyNone PyNone PyNone PyNone PyNone PyNone PyNone)
           1 (-1) O).
  - apply grid_wf.
  - reflexivity.
Defined.

Lemma filter_filter_bool {A} (f g : A -> bool) (l : list A) :
  List.filter f (List.filter g l) = List.filter (fun x => g x && f x) l.
Proof.
  induction l as [|x l IH]; simpl; [reflexivity|].
  destruct (g x); simpl; [destruct (f x)|]; now rewrite IH.
Qed.

(** X7. After a successful [place_marker] of a marker other than [None],
    [available_moves] is the list it was before without the coordinate
    just taken, which was in it. *)
Theorem available_moves_after_place (b : Board) (row col : Z) (m : pyval)
    (b' : Board) :
  wf_board b -> m <> PyNone -> place_marker row col m b = (Ok tt, b') ->
  exists l,
    available_moves b = (Ok l, b)
    /\ In (wrap3 row, wrap3 col) l
    /\ available_moves b'
       = (Ok (List.filter
                (fun rc => negb (coord_eqb rc (wrap3 row, wrap3 col))) l), b').
Proof.
  intros Hwf Hm Hp.
  apply (place_marker_Ok_iff b row col m b' Hwf) in Hp
    as (Hr & Hc & Hnone & ->).
  destruct (set_cell_wrap b row col m Hwf Hr Hc) as (_ & _ & Hb).
  pose proof (set_cell_wf b (wrap3 row) (wrap3 col) m Hwf) as Hwf'.
  exists (avail_pure b). split; [now apply available_moves_wf|]. split.
  - now apply in_avail_pure.
  - rewrite (available_moves_wf _ Hwf'). f_equal. f_equal.
    unfold avail_pure. rewrite filter_filter_bool.
    apply List.filter_ext_in. intros [i j] Hin. apply in_positions in Hin.
    cbn [fst snd]. rewrite (cell_set_cell b _ _ m i j Hwf Hb Hin).
    unfold coord_eqb. cbn [fst snd].
    destruct ((i =? wrap3 row) && (j =? wrap3 col)); simpl.
    + destruct m; [congruence | |]; now rewrite andb_false_r.
    + now rewrite andb_true_r.
Qed.

Lemma available_moves_after_place_witness :
  exists l,
    available_moves Board_init = (Ok l, Board_init)
    /\ In (wrap3 1, wrap3 1) l
    /\ available_moves (grid PyNone PyNone PyNone PyNone X PyNone PyNone PyNone PyNone)
       = (Ok (List.filter
                (fun rc => negb (coord_eqb rc (wrap3 1, wrap3 1))) l),
          grid PyNone PyNone PyNone PyNone X PyNone PyNone PyNone PyNone).
Proof.
  apply (available_moves_after_place Board_init 1 1 X).
  - apply Board_init_wf.
  - discriminate.
  - reflexivity.
Defined.

(** X8. The 3x3 shape is an invariant: every board operation, with any
    arguments and whether it returns or raises, leaves a 3x3 board 3x3. *)
Theorem board_shape_invariant (op : board_op) (b : Board) :
  wf_board b -> wf_board (run_op op b).
Proof.
  intros Hwf. destruct op as [row col | row col m | | |]; cbn [run_op].
  - now rewrite read_only_get_cell.
  - destruct (place_marker row col m b) as [[[]|e] b'] eqn:Hp; cbn [snd].
    + apply place_marker_set_cell in Hp as [_ ->]. now apply set_cell_wf.
    + now rewrite (place_marker_raise _ _ _ _ _ _ Hp).
  - now rewrite read_only_is_full.
  - now rewrite read_only_available_moves.
  - now rewrite read_only_Board_str.
Qed.

Lemma board_shape_invariant_witness :
  wf_board (run_op (OpPlaceMarker (-2) 1 (PyInt 7)) Board_init).
Proof.
  apply (board_shape_invariant (OpPlaceMarker (-2) 1 (PyInt 7)) Board_init).
  apply Board_init_wf.
Defined.

Lemma set_cell_comm b r1 c1 m1 r2 c2 m2 :
  wf_board b -> in_bounds r1 c1 -> in_bounds r2 c2 -> (r1, c1) <> (r2, c2) ->
  set_cell (set_cell b r1 c1 m1) r2 c2 m2
  = set_cell (set_cell b r2 c2 m2) r1 c1 m1.
Proof.
  intros Hwf H1 H2 Hne. to_grid b Hwf.
  bounds_cases H1; bounds_cases H2; first [congruence | reflexivity].
Qed.

(** X9. Placements on two different cells commute: if placing at one cell
    and then at another succeeds, so does placing in the other order, and
    the board is the same. *)
Theorem place_marker_commutes (b : Board) (r1 c1 r2 c2 : Z) (m1 m2 : pyval)
    (b' : Board) :
  wf_board b -> in_bounds r1 c1 -> in_bounds r2 c2 -> (r1, c1) <> (r2, c2) ->
  (place_marker r1 c1 m1 ;;; place_marker r2 c2 m2) b = (Ok tt, b') ->
  (place_marker r2 c2 m2 ;;; place_marker r1 c1 m1) b = (Ok tt, b').
Proof.
  intros Hwf H1 H2 Hne Hp.
  apply bind_Ok_inv in Hp as ([] & b1 & Hp1 & Hp2).
  apply place_marker_set_cell in Hp1 as [Hn1 ->].
  apply place_marker_set_cell in Hp2 as [Hn2 ->].
  rewrite (cell_set_cell b r1 c1 m1 r2 c2 Hwf H1 H2) in Hn2.
  assert (Hn2' : cell b r2 c2 = PyNone).
  { destruct (Z.eqb_spec r2 r1), (Z.eqb_spec c2 c1); simpl in Hn2;
      congruence. }
  rewrite (bind_ok _ _ _ _ _ (place_marker_empty b r2 c2 m2 Hwf H2 Hn2')).
  rewrite (set_cell_comm b r1 c1 m1 r2 c2 m2 Hwf H1 H2 Hne).
  apply place_marker_empty; [now apply set_cell_wf | assumption |].
  rewrite (cell_set_cell b r2 c2 m2 r1 c1 Hwf H2 H1).
  destruct (Z.eqb_spec r1 r2), (Z.eqb_spec c1 c2); simpl; congruence.
Qed.

Lemma place_marker_commutes_witness :
  (place_marker 1 1 O ;;; place_marker 0 0 X) Board_init
  = (Ok tt, grid X PyNone PyNone PyNone O PyNone PyNone PyNone PyNone).
Proof.
  apply (place_marker_commutes Board_init 0 0 1 1 X O).
  - apply Board_init_wf.
  - unfold in_bounds; lia.
  - unfold in_bounds; lia.
  - discriminate.
  - reflexivity.
Defined.

(** ** Rendering in general *)

Lemma bind_eval {S A B} (c : M S A) (k : A -> M S B) s r s' :
  c s = (r, s') ->
  bind c k s = match r with
               | Ok a => k a s'
               | Raise e => (Raise e, s')
               end.
Proof. unfold bind. now intros ->. Qed.

Lemma for_acc_res {S A B} (xs : list A) (body : A -> B -> M S B)
    (f : B -> A -> result B) s :
  (forall x acc, In x xs -> body x acc s = (f acc x, s)) ->
  forall acc, for_acc xs body acc s = (fold_res f xs acc, s).
Proof.
  induction xs as [|x xs IH]; intros H acc; simpl; [reflexivity|].
  rewrite (bind_eval _ _ _ _ _ (H x acc (or_introl eq_refl))).
  destruct (f acc x) as [acc'|e]; [|reflexivity].
  apply IH. intros y acc'' Hy. apply H. now right.
Qed.

(** [__str__] on a 3x3 board computes [render] and leaves the board. *)
Lemma Board_str_wf b : wf_board b -> Board_str b = (render b, b).
Proof.
  intros Hwf. unfold Board_str, render.
  erewrite bind_eval; cycle 1.
  { apply for_acc_res with
      (f := fun result row =>
         match render_row b row with
         | Ok row_str =>
             let result := (result ++ [row_str])%list in
             Ok (if row <? 2 then (result ++ ["-+-+-"])%list else result)
         | Raise e => Raise e
         end).
    intros row acc Hrow. unfold render_row.
    erewrite bind_eval; cycle 1.
    { apply for_acc_res with
        (f := fun row_str col =>
           match add_cell row_str (cell b row col) with
           | Ok r => Ok (if col <? 2 then r ++ "|" else r)
           | Raise e => Raise e
           end).
      intros col acc' Hcol.
      rewrite (bind_ok _ _ _ _ _
                 (board_at_wf b row col Hwf (in_bounds_range _ _ Hrow Hcol))).
      destruct (cell b row col); simpl; try reflexivity;
        now destruct (col <? 2). }
    destruct (fold_res _ _ _); [|reflexivity].
    simpl. now destruct (row <? 2). }
  now destruct (fold_res _ _ _).
Qed.

Lemma string_app_assoc (s1 s2 s3 : string) :
  (s1 ++ s2) ++ s3 = s1 ++ (s2 ++ s3).
Proof. induction s1 as [|c s1 IH]; simpl; [reflexivity | now rewrite IH]. Qed.

Lemma render_row_printable b row :
  wf_board b -> In row (py_range 3) ->
  printable (cell b row 0) -> printable (cell b row 1) ->
  printable (cell b row 2) ->
  render_row b row
  = Ok (row_text (cell b row 0) (cell b row 1) (cell b row 2)).
Proof.
  intros Hwf Hrow. unfold render_row, row_text.
  rewrite py_range3. cbn [fold_res].
  destruct (cell b row 0), (cell b row 1), (cell b row 2);
    simpl; intros H0 H1 H2; try contradiction;
    rewrite ?string_app_assoc; reflexivity.
Qed.

Lemma render_printable b :
  wf_board b ->
  (forall row col, in_bounds row col -> printable (cell b row col)) ->
  render b
  = Ok (row_text (cell b 0 0) (cell b 0 1) (cell b 0 2) ++ nl
        ++ "-+-+-" ++ nl
        ++ row_text (cell b 1 0) (cell b 1 1) (cell b 1 2) ++ nl
        ++ "-+-+-" ++ nl
        ++ row_text (cell b 2 0) (cell b 2 1) (cell b 2 2)).
Proof.
  intros Hwf Hp.
  assert (Hrow : forall row, In row (py_range 3) ->
            render_row b row
            = Ok (row_text (cell b row 0) (cell b row 1) (cell b row 2))).
  { intros row Hrow. pose proof (in_range3 row Hrow) as Hr.
    apply render_row_printable; try assumption;
      apply Hp; unfold in_bounds; lia. }
  unfold render. rewrite py_range3. cbn [fold_res].
  rewrite !Hrow by (rewrite py_range3; simpl; tauto).
  reflexivity.
Qed.

(** X10. On a 3x3 board whose cells are [None] or strings, [__str__]
    returns five lines joined by newlines: the three rows, each made of its
    three cells ([None] as one space, a string as itself) joined by ['|'],
    with the divider ['-+-+-'] between consecutive rows.  The board is left
    as it was. *)
Theorem str_format (b : Board) :
  wf_board b ->
  (forall row col, in_bounds row col -> printable (cell b row col)) ->
  Board_str b
  = (Ok (row_text (cell b 0 0) (cell b 0 1) (cell b 0 2) ++ nl
         ++ "-+-+-" ++ nl
         ++ row_text (cell b 1 0) (cell b 1 1) (cell b 1 2) ++ nl
         ++ "-+-+-" ++ nl
         ++ row_text (cell b 2 0) (cell b 2 1) (cell b 2 2)), b).
Proof.
  intros Hwf Hp. rewrite (Board_str_wf b Hwf).
  now rewrite (render_printable b Hwf Hp).
Qed.

Lemma str_format_witness :
  Board_str (grid X PyNone (PyStr "ab") PyNone O PyNone PyNone PyNone X)
  = (Ok (row_text X PyNone (PyStr "ab") ++ nl ++ "-+-+-" ++ nl
         ++ row_text PyNone O PyNone ++ nl ++ "-+-+-" ++ nl
         ++ row_text PyNone PyNone X),
     grid X PyNone (PyStr "ab") PyNone O PyNone PyNone PyNone X).
Proof.
  apply (str_format (grid X PyNone (PyStr "ab") PyNone O PyNone PyNone PyNone X)).
  - apply grid_wf.
  - intros row col Hb. bounds_cases Hb; exact I.
Defined.





(** ** Wins *)

Lemma py_eq_refl a : py_eq a a = true.
Proof. now apply py_eq_spec. Qed.

Lemma py_eq_none_l m : m <> PyNone -> py_eq PyNone m = false.
Proof. destruct m; simpl; congruence. Qed.

(** A board operation on a 3x3 board either leaves it as it is or fills one
    empty in-bounds cell. *)
Lemma run_op_set_cell op b :
  wf_board b ->
  run_op op b = b
  \/ exists row col m, in_bounds row col /\ cell b row col = PyNone
                       /\ run_op op b = set_cell b row col m.
Proof.
  intros Hwf. destruct op as [row col | row col m | | |]; cbn [run_op].
  - left. apply read_only_get_cell.
  - destruct (place_marker row col m b) as [[[]|e] b'] eqn:Hp; cbn [snd].
    + right. apply (place_marker_Ok_iff b row col m b' Hwf) in Hp
        as (Hr & Hc & Hnone & ->).
      destruct (set_cell_wrap b row col m Hwf Hr Hc) as (_ & _ & Hb).
      eauto 10.
    + left. now apply place_marker_raise in Hp.
  - left. apply read_only_is_full.
  - left. apply read_only_available_moves.
  - left. apply read_only_Board_str.
Qed.

(** Filling an empty cell keeps every line that was complete. *)
Lemma win_pure_set_cell_mono b row col m0 m :
  wf_board b -> in_bounds row col -> cell b row col = PyNone ->
  m <> PyNone -> win_pure m b = true ->
  win_pure m (set_cell b row col m0) = true.
Proof.
  intros Hwf Hb Hc Hm. apply py_eq_none_l in Hm. revert Hc. to_grid b Hwf.
  bounds_cases Hb; cell_simpl; intros ->; set_cell_simpl;
    rewrite !win_pure_grid, ?Hm;
    repeat match goal with
    | |- context [py_eq ?x m] => destruct (py_eq x m)
    end; simpl; congruence.
Qed.

(** X12. A win is never undone: once [check_win(marker)] is [True] for a
    marker other than [None], it is still [True] after any board operation,
    with any arguments and whether the operation returns or raises. *)
Theorem win_is_never_undone (op : board_op) (b : Board) (m : pyval) :
  wf_board b -> m <> PyNone ->
  check_win m b = (Ok true, b) ->
  check_win m (run_op op b) = (Ok true, run_op op b).
Proof.
  intros Hwf Hm Hwin.
  rewrite (check_win_wf m b Hwf) in Hwin.
  assert (Hw : win_pure m b = true) by congruence.
  destruct (run_op_set_cell op b Hwf)
    as [-> | (row & col & m0 & Hb & Hc & ->)].
  - now rewrite (check_win_wf m b Hwf), Hw.
  - rewrite (check_win_wf m _ (set_cell_wf b row col m0 Hwf)).
    now rewrite (win_pure_set_cell_mono b row col m0 m Hwf Hb Hc Hm Hw).
Qed.

Lemma win_is_never_undone_witness :
  check_win X (run_op (OpPlaceMarker 1 1 O)
                 (grid X X X PyNone PyNone O PyNone O PyNone))
  = (Ok true, run_op (OpPlaceMarker 1 1 O)
                (grid X X X PyNone PyNone O PyNone O PyNone)).
Proof.
  apply (win_is_never_undone (OpPlaceMarker 1 1 O)
           (grid X X X PyNone PyNone O PyNone O PyNone) X).
  - apply grid_wf.
  - discriminate.
  - reflexivity.
Defined.



(** ** The game, move by move *)

Lemma count_mark_grid m a b c d e f g h i :
  count_mark m (grid a b c d e f g h i)
  = (Nat.b2n (py_eq a m) + Nat.b2n (py_eq b m) + Nat.b2n (py_eq c m)
     + Nat.b2n (py_eq d m) + Nat.b2n (py_eq e m) + Nat.b2n (py_eq f m)
     + Nat.b2n (py_eq g m) + Nat.b2n (py_eq h m) + Nat.b2n (py_eq i m))%nat.
Proof.
  unfold count_mark, positions. cbn -[cell py_eq]. cell_simpl.
  destruct (py_eq a m), (py_eq b m), (py_eq c m), (py_eq d m), (py_eq e m),
    (py_eq f m), (py_eq g m), (py_eq h m), (py_eq i m); reflexivity.
Qed.

(** A complete line takes three marks. *)
Lemma win_pure_count m b :
  wf_board b -> win_pure m b = true -> (3 <= count_mark m b)%nat.
Proof.
  intros Hwf. to_grid b Hwf. rewrite win_pure_grid, count_mark_grid.
  repeat match goal with
  | |- context [py_eq ?x m] => destruct (py_eq x m)
  end; simpl; intros H; try discriminate; lia.
Qed.

(** Filling an empty cell adds one mark of the marker placed. *)
Lemma count_mark_set_cell b row col m m' :
  wf_board b -> in_bounds row col -> cell b row col = PyNone ->
  m' <> PyNone ->
  count_mark m' (set_cell b row col m)
  = (count_mark m' b + Nat.b2n (py_eq m m'))%nat.
Proof.
  intros Hwf Hb Hc Hm. apply py_eq_none_l in Hm. revert Hc. to_grid b Hwf.
  bounds_cases Hb; cell_simpl; intros ->; set_cell_simpl;
    rewrite !count_mark_grid, Hm; simpl; lia.
Qed.

Lemma transcript_snoc renders s : forall i,
  transcript i (renders ++ [s])
  = (transcript i renders
     ++ [player_line (player_at (i + length renders)); s])%list.
Proof.
  induction renders as [|r renders IH]; intros i; simpl.
  - now rewrite Nat.add_0_r.
  - rewrite IH. now rewrite Nat.add_succ_r.
Qed.

Lemma transcript_length renders : forall i,
  length (transcript i renders) = (2 * length renders)%nat.
Proof.
  induction renders as [|r renders IH]; intros i; simpl; [reflexivity|].
  rewrite IH. lia.
Qed.

Lemma player_at_cases k : player_at k = X \/ player_at k = O.
Proof. unfold player_at. destruct (Nat.even k); tauto. Qed.

Lemma player_at_succ k : player_at (S k) = other_player (player_at k).
Proof.
  unfold player_at, other_player. rewrite Nat.even_succ, <- Nat.negb_even.
  now destruct (Nat.even k).
Qed.

Lemma count_step k :
  (k <= 8)%nat ->
  (Nat.div2 (S k) + Nat.b2n (py_eq (player_at k) X) = Nat.div2 (S (S k)))%nat
  /\ (Nat.div2 k + Nat.b2n (py_eq (player_at k) O) = Nat.div2 (S k))%nat.
Proof.
  intros Hk. do 9 (destruct k as [|k]; [split; reflexivity|]). lia.
Qed.

(** One turn, with everything the loop keeps track of. *)
Lemma loop_body_turn rnd pre n0 k w :
  turn_inv pre n0 k w ->
  match loop_body rnd main_runner w with
  | (Ok None, w') => turn_inv pre n0 (S k) w'
  | (Ok (Some o), w') => game_end pre n0 o w'
  | (Raise _, _) => False
  end.
Proof.
  intros (Hinv & Hcur & HcX & HcO & renders & Hlen & Hout & s0 & Hs0 & Hlast).
  pose proof (loop_body_inv rnd n0 k w Hinv) as Hstep.
  destruct w as [b p out n].
  cbn [w_board w_current_player w_stdout w_rng] in *. subst p out.
  destruct Hinv as (Hwf & Hg & Hav & Hk & Hn & Hp & HwX & HwO).
  cbn [w_board w_current_player w_stdout w_rng] in *.
  assert (Hne : avail_pure b <> []).
  { intros E. rewrite E in Hav. simpl in Hav. lia. }
  destruct (loop_body_step rnd b (player_at k)
              (pre ++ transcript 0 renders)%list n Hwf Hg Hne Hp)
    as (row & col & s & Hin & Hs & Heq).
  rewrite Heq in *. cbv zeta in *. clear Heq.
  apply in_avail_pure in Hin as [Hb Hc].
  set (p := player_at k) in *.
  set (b' := set_cell b row col p) in *.
  assert (Hpne : p <> PyNone) by (destruct Hp as [-> | ->]; discriminate).
  pose proof (place_marker_empty b row col p Hwf Hb Hc) as Hpl.
  destruct (place_marker_avail b row col p b' Hwf Hpne Hpl) as [Hwf' Hav'].
  destruct (count_step k Hk) as [HsX HsO]. fold p in HsX, HsO.
  assert (HcX' : count_mark X b' = Nat.div2 (S (S k))).
  { unfold b'. rewrite count_mark_set_cell by (auto; discriminate).
    now rewrite HcX. }
  assert (HcO' : count_mark O b' = Nat.div2 (S k)).
  { unfold b'. rewrite count_mark_set_cell by (auto; discriminate).
    now rewrite HcO. }
  assert (Hother : win_pure (other_player p) b' = false).
  { unfold b'. destruct Hp as [Hp | Hp]; rewrite Hp;
      (rewrite win_pure_set_cell; [assumption | assumption.. | reflexivity | reflexivity]). }
  assert (Htr : forall tl,
            ((pre ++ transcript 0 renders) ++ [player_line p; s] ++ tl
             = pre ++ transcript 0 (renders ++ [s]) ++ tl)%list).
  { intros tl. rewrite transcript_snoc, Hlen. simpl.
    now rewrite <- !app_assoc. }
  destruct (win_pure p b') eqn:Hwin.
  { exists k, renders, s. cbn [w_board w_rng w_stdout final_line].
    repeat (split; [first [assumption | lia]|]).
    split.
    - rewrite <- (Htr [won_line p]). now rewrite <- !app_assoc.
    - auto. }
  destruct (full_pure b' && negb (win_pure X b') && negb (win_pure O b'))
    eqn:Hdraw.
  { apply andb_true_iff in Hdraw as [Hdraw HdO].
    apply andb_true_iff in Hdraw as [Hfull HdX].
    apply negb_true_iff in HdX, HdO.
    exists k, renders, s. cbn [w_board w_rng w_stdout final_line].
    repeat (split; [first [assumption | lia]|]).
    split.
    - rewrite <- (Htr [draw_line]). now rewrite <- !app_assoc.
    - auto. }
  split; [exact Hstep|]. cbn [w_board w_current_player w_stdout w_rng].
  split; [now rewrite player_at_succ|].
  split; [assumption|]. split; [assumption|].
  exists (renders ++ [s])%list. split; [rewrite length_app; simpl; lia|].
  split.
  - pose proof (Htr []) as E. now rewrite !app_nil_r in E.
  - exists s. split; [assumption|]. rewrite app_assoc. apply last_snoc.
Qed.

Lemma run_loop_turn rnd pre n0 j : forall k w,
  turn_inv pre n0 k w -> (k + j = 9)%nat ->
  exists o w',
    (forall extra, run_loop rnd main_runner (j + extra) w = Some (Ok o, w'))
    /\ game_end pre n0 o w'.
Proof.
  induction j as [|j IH]; intros k w Hinv Hkj.
  - destruct Hinv as ((_ & _ & _ & Hk & _) & _). lia.
  - pose proof (loop_body_turn rnd pre n0 k w Hinv) as Hstep.
    destruct (loop_body rnd main_runner w) as [[[o|]|e] w'] eqn:Hbody.
    + exists o, w'. split; [|assumption].
      intros extra. simpl. now rewrite Hbody.
    + destruct (IH (S k) w' Hstep ltac:(lia)) as (o & w'' & Hrun & Hend).
      exists o, w''. split; [|assumption].
      intros extra. simpl. rewrite Hbody. apply Hrun.
    + destruct Hstep.
Qed.

(** A whole game from a fresh board, with everything known at its end. *)
Lemma run_game_analysis rnd out n0 :
  exists s0 o w',
    Board_str Board_init = (Ok s0, Board_init)
    /\ (forall extra,
          run_game rnd main_runner (9 + extra)
            (GameRunner_init Board_init out n0) = Some (Ok o, w'))
    /\ game_end (out ++ [start_line; initial_line; s0])%list n0 o w'.
Proof.
  assert (Hg0 : game_board Board_init).
  { intros row col Hb. bounds_cases Hb; left; reflexivity. }
  destruct (Board_str_ok Board_init Board_init_wf Hg0) as [s0 Hs0].
  set (pre := (out ++ [start_line; initial_line; s0])%list).
  set (w0 := {| w_board := Board_init; w_current_player := X;
                w_stdout := pre; w_rng := n0 |}).
  assert (Hinv : turn_inv pre n0 0 w0).
  { split; [apply game_inv_init|]. repeat split.
    exists []. split; [reflexivity|]. split.
    - simpl. now rewrite app_nil_r.
    - exists s0. split; [assumption|]. rewrite app_nil_r. unfold pre.
      change [start_line; initial_line; s0]
        with ([start_line; initial_line] ++ [s0])%list.
      rewrite app_assoc. apply last_snoc. }
  destruct (run_loop_turn rnd pre n0 9 0%nat w0 Hinv eq_refl)
    as (o & w' & Hrun & Hend).
  exists s0, o, w'. split; [assumption|]. split; [|assumption].
  intros extra. unfold run_game.
  replace ((print start_line;;; print initial_line;;;
            s <- on_board Board_str;; print s)
             (GameRunner_init Board_init out n0))
    with (@Ok unit tt, w0).
  - apply Hrun.
  - unfold w0, pre, GameRunner_init, bind, print, on_board, set_board.
    cbn [w_board w_current_player w_stdout w_rng].
    rewrite Hs0. cbn [w_board w_current_player w_stdout w_rng].
    rewrite <- !app_assoc. reflexivity.
Qed.

(** X14. The verdict of a game is sound.  For every random source, a game
    run from a fresh board ends; if it reports that a player won, that
    player is ['X'] or ['O'], [check_win] is [True] for that player on the
    final board and [False] for the other player; if it reports a draw,
    the final board is full, [check_win] is [False] for both players and
    nine moves were made. *)
Theorem verdict_is_sound (rnd : nat -> nat) (out : list string) (n0 : nat) :
  exists o w',
    run_game rnd main_runner 9 (GameRunner_init Board_init out n0)
    = Some (Ok o, w')
    /\ match o with
       | Won p =>
           (p = X \/ p = O)
           /\ check_win p (w_board w') = (Ok true, w_board w')
           /\ check_win (other_player p) (w_board w') = (Ok false, w_board w')
       | Draw =>
           is_full (w_board w') = (Ok true, w_board w')
           /\ check_win X (w_board w') = (Ok false, w_board w')
           /\ check_win O (w_board w') = (Ok false, w_board w')
           /\ w_rng w' = (n0 + 9)%nat
       | Aborted _ => False
       end.
Proof.
  destruct (run_game_analysis rnd out n0) as (s0 & o & w' & _ & Hrun & Hend).
  exists o, w'. split; [apply (Hrun 0%nat)|].
  destruct Hend as (k & renders & s & Hk & Hrng & Hwf & Hav & _ & _ & _ & _
                    & _ & Ho).
  destruct o as [msg | p |]; [exact Ho | |].
  - destruct Ho as (-> & Hw & Hl).
    rewrite !(check_win_wf _ _ Hwf), Hw, Hl.
    split; [apply player_at_cases | split; reflexivity].
  - destruct Ho as (Hf & HX & HO).
    rewrite (is_full_wf _ Hwf), !(check_win_wf _ _ Hwf), Hf, HX, HO.
    repeat split.
    apply (full_pure_avail _ Hwf) in Hf. rewrite Hf in Hav. simpl in Hav. lia.
Qed.

(** X15. The players take turns, ['X'] first.  At the end of a game from a
    fresh board the marks on the board are the moves made, ['X'] has as
    many marks as ['O'] or one more, a win of ['X'] comes after an odd
    number of moves and at least five, a win of ['O'] after an even number
    and at least six, and a draw after exactly nine. *)
Theorem turns_alternate (rnd : nat -> nat) (out : list string) (n0 : nat) :
  exists o w' moves,
    run_game rnd main_runner 9 (GameRunner_init Board_init out n0)
    = Some (Ok o, w')
    /\ w_rng w' = (n0 + moves)%nat
    /\ (count_mark X (w_board w') + count_mark O (w_board w') = moves)%nat
    /\ (count_mark O (w_board w') <= count_mark X (w_board w')
        <= count_mark O (w_board w') + 1)%nat
    /\ (o = Won X -> Nat.odd moves = true /\ (5 <= moves)%nat)
    /\ (o = Won O -> Nat.even moves = true /\ (6 <= moves)%nat)
    /\ (o = Draw -> moves = 9%nat).
Proof.
  destruct (run_game_analysis rnd out n0) as (s0 & o & w' & _ & Hrun & Hend).
  destruct Hend as (k & renders & s & Hk & Hrng & Hwf & Hav & HcX & HcO & _
                    & _ & _ & Ho).
  exists o, w', (S k). split; [apply (Hrun 0%nat)|]. split; [assumption|].
  rewrite HcX, HcO.
  assert (Hnum : (Nat.div2 (S (S k)) + Nat.div2 (S k) = S k
                  /\ Nat.div2 (S k) <= Nat.div2 (S (S k)) <= Nat.div2 (S k) + 1)%nat).
  { clear -Hk. do 9 (destruct k as [|k]; [simpl; lia|]). lia. }
  split; [apply Hnum|]. split; [apply Hnum|]. split; [|split].
  - intros ->. destruct Ho as (Hp & Hw & _).
    apply (win_pure_count _ _ Hwf) in Hw. rewrite HcX in Hw.
    clear -Hk Hp Hw.
    do 9 (destruct k as [|k];
          [first [discriminate Hp | simpl in Hw; lia | split; [reflexivity | lia]]|]).
    lia.
  - intros ->. destruct Ho as (Hp & Hw & _).
    apply (win_pure_count _ _ Hwf) in Hw. rewrite HcO in Hw.
    clear -Hk Hp Hw.
    do 9 (destruct k as [|k];
          [first [discriminate Hp | simpl in Hw; lia | split; [reflexivity | lia]]|]).
    lia.
  - intros ->. destruct Ho as (Hf & _).
    apply (full_pure_avail _ Hwf) in Hf. rewrite Hf in Hav. simpl in Hav. lia.
Qed.






(** X17. [main] ends normally whatever the random generator produces: it
    prints its banner first and ends with exactly one of the three
    verdicts ["\nPLAYER X WON!"], ["\nPLAYER O WON!"], ["\nGAME DRAW!"] as
    its last line, without raising and without taking the error branch;
    nine turns of the loop are enough. *)
Theorem main_ends (rnd : nat -> nat) (out : list string) (n0 : nat) :
  exists o w' middle,
    (forall extra, main rnd (9 + extra) out n0 = Some (Ok o, w'))
    /\ w_stdout w' = (out ++ [banner_line] ++ middle ++ [final_line o])%list
    /\ ((o = Won X /\ final_line o = nl ++ "PLAYER X WON!")
        \/ (o = Won O /\ final_line o = nl ++ "PLAYER O WON!")
        \/ (o = Draw /\ final_line o = nl ++ "GAME DRAW!")).
Proof.
  destruct (run_game_analysis rnd (out ++ [banner_line])%list n0)
    as (s0 & o & w' & _ & Hrun & Hend).
  destruct Hend as (k & renders & s & _ & _ & _ & _ & _ & _ & _ & _ & Hout
                    & Ho).
  exists o, w',
    ([start_line; initial_line; s0] ++ transcript 0 (renders ++ [s]))%list.
  split; [exact Hrun|]. split.
  - rewrite Hout. now rewrite <- !app_assoc.
  - destruct o as [msg | p |]; [destruct Ho | |].
    + destruct Ho as (-> & _).
      destruct (player_at_cases k) as [-> | ->]; auto.
    + auto.
Qed.

(** ** A game that cannot start *)

(** X18. The error branch.  Started on a full 3x3 board (whose cells can be
    rendered), [run_game] prints the header and the board, announces ['X'],
    catches the [ValueError] of [make_move], prints
    ["Error: No available moves"] and stops in its first turn: no move is
    made, no draw is made from the generator, and no verdict is printed,
    whoever the bots are and whatever lines the board holds. *)
Theorem run_game_on_full_board (rnd : nat -> nat) (self : GameRunner)
    (fuel : nat) (b : Board) (out : list string) (n0 : nat) :
  wf_board b ->
  (forall row col, in_bounds row col -> printable (cell b row col)) ->
  no_empty_cell b ->
  exists s,
    Board_str b = (Ok s, b)
    /\ run_game rnd self (S fuel) (GameRunner_init b out n0)
       = Some (Ok (Aborted "No available moves"),
               {| w_board := b; w_current_player := X;
                  w_stdout := (out ++ [start_line; initial_line; s;
                                       player_line X;
                                       "Error: No available moves"])%list;
                  w_rng := n0 |}).
Proof.
  intros Hwf Hp Hfull.
  pose proof (Board_str_wf b Hwf) as Hs.
  rewrite (render_printable b Hwf Hp) in Hs.
  eexists. split; [exact Hs|].
  assert (Hav : avail_pure b = []).
  { now apply (full_pure_avail b Hwf), (full_pure_no_empty_cell b Hwf). }
  unfold run_game, GameRunner_init.
  unfold bind at 1. cbn [print w_board w_current_player w_stdout w_rng].
  unfold bind at 1. cbn [print w_board w_current_player w_stdout w_rng].
  match goal with
  | |- context [bind (on_board Board_str) ?k ?w] =>
      rewrite (bind_ok (on_board Board_str) k w _ w (on_board_ro _ _ w Hs))
  end.
  cbn [print w_board w_current_player w_stdout w_rng run_loop].
  unfold loop_body.
  unfold bind at 1. cbn [get_current_player w_current_player].
  change (py_eq X X) with true. cbv iota.
  unfold bind at 1. cbn [print w_board w_current_player w_stdout w_rng].
  unfold bind at 1. unfold catch.
  match goal with
  | |- context [make_move rnd ?bot ?w] =>
      destruct (make_move_wf rnd bot w Hwf)
        as [[_ ->] | (row & col & Hin & _)]
  end.
  - cbn [bind print ret w_board w_current_player w_stdout w_rng].
    unfold bind, print, ret. cbn [w_board w_current_player w_stdout w_rng].
    rewrite <- !app_assoc. reflexivity.
  - cbn [w_board] in Hin. rewrite Hav in Hin. destruct Hin.
Qed.

Lemma run_game_on_full_board_witness :
  exists s,
    Board_str (grid X O X X O O O X X) = (Ok s, grid X O X X O O O X X)
    /\ run_game (fun n => n) main_runner 1
         (GameRunner_init (grid X O X X O O O X X) [] 0)
       = Some (Ok (Aborted "No available moves"),
               {| w_board := grid X O X X O O O X X; w_current_player := X;
                  w_stdout := ([] ++ [start_line; initial_line; s;
                                      player_line X;
                                      "Error: No available moves"])%list;
                  w_rng := 0 |}).
Proof.
  apply (run_game_on_full_board (fun n => n) main_runner 0
           (grid X O X X O O O X X) [] 0).
  - apply grid_wf.
  - intros row col Hb. bounds_cases Hb; exact I.
  - apply (full_pure_no_empty_cell _ (grid_wf _ _ _ _ _ _ _ _ _)). reflexivity.
Defined.

(** ** Every free cell can be chosen *)

(** X19. The bot is not restricted to some of the free cells: for every
    coordinate that [available_moves] offers there is a run of the random
    generator with which [make_move] picks it, places the bot's marker
    there and returns it. *)
Theorem make_move_can_choose_any (self : RandomBot) (w : World)
    (row col : Z) (l : list (Z * Z)) :
  wf_board (w_board w) ->
  available_moves (w_board w) = (Ok l, w_board w) -> In (row, col) l ->
  exists rnd b',
    place_marker row col (marker self) (w_board w) = (Ok tt, b')
    /\ make_move rnd self w
       = (Ok (row, col),
          {| w_board := b'; w_current_player := w_current_player w;
             w_stdout := w_stdout w; w_rng := S (w_rng w) |}).
Proof.
  intros Hwf Hl Hin.
  rewrite (available_moves_wf _ Hwf) in Hl.
  assert (l = avail_pure (w_board w)) as -> by congruence.
  pose proof Hin as Hin'. apply in_avail_pure in Hin' as [Hb Hc].
  pose proof (place_marker_empty _ row col (marker self) Hwf Hb Hc) as Hp.
  apply list_elem_of_In, list_elem_of_lookup in Hin as [i Hi].
  exists (fun _ => i), (set_cell (w_board w) row col (marker self)).
  split; [assumption|].
  unfold make_move.
  rewrite (bind_ok _ _ _ _ _
             (on_board_ro _ _ w (available_moves_wf _ Hwf))).
  destruct (avail_pure (w_board w)) as [|rc0 rest] eqn:Hav;
    [now rewrite lookup_nil in Hi|].
  assert (Hch : random_choice (fun _ => i) (rc0 :: rest) w
                = (Ok (row, col),
                   {| w_board := w_board w;
                      w_current_player := w_current_player w;
                      w_stdout := w_stdout w; w_rng := S (w_rng w) |})).
  { unfold random_choice. apply lookup_lt_Some in Hi as Hlt.
    rewrite Nat.mod_small by exact Hlt. now rewrite Hi. }
  rewrite (bind_ok _ _ _ _ _ Hch).
  erewrite bind_ok; [reflexivity|].
  unfold on_board. cbn [fst snd w_board]. now rewrite Hp.
Qed.

Lemma make_move_can_choose_any_witness :
  exists rnd b',
    place_marker 2 0 O Board_init = (Ok tt, b')
    /\ make_move rnd {| marker := O |}
         {| w_board := Board_init; w_current_player := X;
            w_stdout := []; w_rng := 0 |}
       = (Ok (2, 0),
          {| w_board := b'; w_current_player := X;
             w_stdout := []; w_rng := 1 |}).
Proof.
  apply (make_move_can_choose_any {| marker := O |}
           {| w_board := Board_init; w_current_player := X;
              w_stdout := []; w_rng := 0 |}
           2 0
           [(0, 0); (0, 1); (0, 2); (1, 0); (1, 1); (1, 2);
            (2, 0); (2, 1); (2, 2)]).
  - apply Board_init_wf.
  - reflexivity.
  - simpl. tauto.
Defined.
